(** * MCP GraphQL Forge: tool generation and call validation

    A shallow embedding of [tool-generator.ts] (field-selection synthesis,
    parameter schemas, tool registry) and of the call handler of [cli.ts]
    (required-parameter validation, operation text), with the properties
    the specification states about them.

    GraphQL type objects reference each other by pointer in graphql-js and
    may be cyclic; here a named type is referenced by its name and resolved
    through the schema's type map, which [buildClientSchema] keys by name.
    The two module-level [Map]s of the source are an explicit [Caches]
    state threaded through every function that touches them. *)

From stdpp Require Import gmap strings list.
From Stdlib Require Import String Ascii.

Open Scope string_scope.
Open Scope list_scope.

Set Warnings "-register-all,-clear-no-such-hyp".

(** ** JavaScript values and strings *)

Inductive JSValue :=
| JUndefined
| JNull
| JBool (b : bool)
| JNumber (z : Z)
| JNaN
| JString (s : string)
| JArray (items : list JSValue)
| JObject (props : list (string * JSValue)).

Definition isUndefined (v : JSValue) : bool :=
  match v with JUndefined => true | _ => false end.

Definition isNull (v : JSValue) : bool :=
  match v with JNull => true | _ => false end.

(** Truthiness of a string: only the empty string is falsy. *)
Definition truthy (s : string) : bool :=
  match s with EmptyString => false | String _ _ => true end.

(** Truthiness of an optional string property ([undefined], [null] and the
    empty string are falsy). *)
Definition truthyOpt (o : option string) : bool :=
  match o with Some s => truthy s | None => false end.

Definition nl : string := String (ascii_of_nat 10) EmptyString.

(** [s.repeat(n)] *)
Fixpoint repeat_str (s : string) (n : nat) : string :=
  match n with
  | O => EmptyString
  | S n' => s +:+ repeat_str s n'
  end.

(** [Array.prototype.join] *)
Definition join (sep : string) (l : list string) : string := String.concat sep l.

(** Lookup in an object used as an ordered map (first binding wins; object
    keys are unique). *)
Fixpoint assoc {A : Type} (k : string) (l : list (string * A)) : option A :=
  match l with
  | [] => None
  | (k', v) :: l' => if String.eqb k k' then Some v else assoc k l'
  end.

Definition hasKey {A : Type} (k : string) (l : list (string * A)) : bool :=
  match assoc k l with Some _ => true | None => false end.

(** ** The GraphQL type graph *)

Inductive GraphQLType :=
| NonNull (ofType : GraphQLType)
| ListOf (ofType : GraphQLType)
| Named (name : string).

Record GraphQLArgument := {
  arg_name : string;
  arg_type : GraphQLType;
  arg_description : option string;
  arg_defaultValue : JSValue   (* [JUndefined] when none is declared *)
}.

Record GraphQLField := {
  field_type : GraphQLType;
  field_args : list GraphQLArgument;
  field_description : option string
}.

Record GraphQLInputField := {
  ifield_type : GraphQLType;
  ifield_description : option string;
  ifield_defaultValue : JSValue
}.

Abbreviation FieldMap := (list (string * GraphQLField)).

Inductive TypeDef :=
| ScalarType
| EnumType (values : list string)
| ObjectType (fields : FieldMap)
| InterfaceType (fields : FieldMap)
| UnionType
| InputObjectType (ifields : list (string * GraphQLInputField)).

Abbreviation TypeMap := (list (string * TypeDef)).

Record GraphQLSchema := {
  typeMap : TypeMap;
  queryType : option string;
  mutationType : option string
}.

Definition isNonNullType (t : GraphQLType) : bool :=
  match t with NonNull _ => true | _ => false end.

(** ** The two selection caches *)

Record Caches := {
  typeFieldSelectionCache : gmap string string;
  minimalFieldSelectionCache : gmap string string
}.

Definition setFull (k v : string) (st : Caches) : Caches :=
  {| typeFieldSelectionCache := <[k := v]> (typeFieldSelectionCache st);
     minimalFieldSelectionCache := minimalFieldSelectionCache st |}.

Definition setMinimal (k v : string) (st : Caches) : Caches :=
  {| typeFieldSelectionCache := typeFieldSelectionCache st;
     minimalFieldSelectionCache := <[k := v]> (minimalFieldSelectionCache st) |}.

Definition clearFieldSelectionCaches (st : Caches) : Caches :=
  {| typeFieldSelectionCache := ∅; minimalFieldSelectionCache := ∅ |}.

(** ** Field-selection synthesis *)

Fixpoint getGraphQLVariableType (graphqlType : GraphQLType) : string :=
  match graphqlType with
  | NonNull t => getGraphQLVariableType t +:+ "!"
  | ListOf t => "[" +:+ getGraphQLVariableType t +:+ "]"
  | Named n => n
  end.

Definition getMinimalFieldSelection (typeName : string) (fields : FieldMap)
    (st : Caches) : string * Caches :=
  match minimalFieldSelectionCache st !! typeName with
  | Some s => (s, st)
  | None =>
      let minimalSelection :=
        if hasKey "documentId" fields then "{ documentId }"
        else if hasKey "id" fields then "{ id }"
        else "" in
      (minimalSelection, setMinimal typeName minimalSelection st)
  end.

(** The three conditional unwrapping steps shared by both generators: one
    non-null, one list, one further non-null layer. *)
Definition stripWrappers (t : GraphQLType) : GraphQLType :=
  let t1 := match t with NonNull t' => t' | _ => t end in
  let t2 := match t1 with ListOf t' => t' | _ => t1 end in
  match t2 with NonNull t' => t' | _ => t2 end.

(** What the [isObjectType]/[isInterfaceType]/[isUnionType] tests see. *)
Inductive CheckKind :=
| CkComposite (name : string) (fields : FieldMap)
| CkUnion
| CkOther.

Definition classify (tm : TypeMap) (checkType : GraphQLType) : CheckKind :=
  match checkType with
  | Named n =>
      match assoc n tm with
      | Some (ObjectType fs) | Some (InterfaceType fs) => CkComposite n fs
      | Some UnionType => CkUnion
      | _ => CkOther
      end
  | _ => CkOther
  end.

(** Signature of the recursive call [generateFullFieldSelection(type, depth)]. *)
Abbreviation Generator :=
  (string -> FieldMap -> nat -> Caches -> option (string * Caches)).

(** Body of the [for] loop over the fields of a type: the text pushed onto
    [fieldSelections] for one field, if any. *)
Definition fieldSelectionEntry (tm : TypeMap) (rec : Generator)
    (typeName : string) (depth : nat) (fieldName : string)
    (field : GraphQLField) (st : Caches) : option (option string * Caches) :=
  match classify tm (stripWrappers (field_type field)) with
  | CkComposite cname cfields =>
      if String.eqb cname typeName then
        let '(minimal, st1) := getMinimalFieldSelection cname cfields st in
        if truthy minimal
        then Some (Some (fieldName +:+ " " +:+ minimal), st1)
        else Some (None, st1)
      else
        match rec cname cfields (depth + 1) st with
        | None => None
        | Some (nestedSelection, st1) =>
            if truthy nestedSelection
            then Some (Some (fieldName +:+ " " +:+ nestedSelection), st1)
            else Some (Some fieldName, st1)
        end
  | CkUnion => Some (Some (fieldName +:+ " { __typename }"), st)
  | CkOther => Some (Some fieldName, st)
  end.

Fixpoint collectFieldSelections (tm : TypeMap) (rec : Generator)
    (typeName : string) (depth : nat) (fields : FieldMap)
    (fieldSelections : list string) (st : Caches)
    : option (list string * Caches) :=
  match fields with
  | [] => Some (fieldSelections, st)
  | (fieldName, field) :: rest =>
      match fieldSelectionEntry tm rec typeName depth fieldName field st with
      | None => None
      | Some (entry, st1) =>
          collectFieldSelections tm rec typeName depth rest
            (fieldSelections ++ option_list entry) st1
      end
  end.

(** The braces-and-indentation template of the source. *)
Definition formatSelection (depth : nat) (fieldSelections : list string) : string :=
  match fieldSelections with
  | [] => ""
  | _ =>
      "{" +:+ nl +:+ repeat_str "  " (depth + 1)
      +:+ join (nl +:+ repeat_str "  " (depth + 1)) fieldSelections
      +:+ nl +:+ repeat_str "  " depth +:+ "}"
  end.

(** [fuel] bounds the nesting of recursive calls; it is consumed only when
    the loop over the fields is entered, so a call at [depth > 3] needs
    none. *)
Fixpoint generateFullFieldSelection (tm : TypeMap) (fuel : nat)
    (typeName : string) (fields : FieldMap) (depth : nat) (st : Caches)
    : option (string * Caches) :=
  match typeFieldSelectionCache st !! typeName with
  | Some s => Some (s, st)
  | None =>
      if Nat.ltb 3 depth then
        let '(minimal, st1) := getMinimalFieldSelection typeName fields st in
        Some (minimal, setFull typeName minimal st1)
      else
        match fuel with
        | O => None
        | S fuel' =>
            match collectFieldSelections tm (generateFullFieldSelection tm fuel')
                    typeName depth fields [] st with
            | None => None
            | Some (fieldSelections, st1) =>
                let selection := formatSelection depth fieldSelections in
                Some (selection, setFull typeName selection st1)
            end
        end
  end.

(** [visited] is the [Set] the source creates per call; the function adds
    the type name before generating and deletes it afterwards, and the
    final set is returned next to the result. *)
Definition generateFieldSelection (tm : TypeMap) (fuel : nat)
    (type : GraphQLType) (visited : gset string) (depth : nat) (st : Caches)
    : option (string * gset string * Caches) :=
  match stripWrappers type with
  | Named n =>
      match assoc n tm with
      | Some ScalarType | Some (EnumType _) => Some ("", visited, st)
      | Some (ObjectType fs) | Some (InterfaceType fs) =>
          if decide (n ∈ visited) then
            let '(minimal, st1) := getMinimalFieldSelection n fs st in
            Some (minimal, visited, st1)
          else
            match typeFieldSelectionCache st !! n with
            | Some s => Some (s, visited, st)
            | None =>
                match generateFullFieldSelection tm fuel n fs depth st with
                | None => None
                | Some (selection, st1) =>
                    Some (selection, ({[n]} ∪ visited) ∖ {[n]}, st1)
                end
            end
      | Some UnionType => Some ("{ __typename }", visited, st)
      | _ => Some ("", visited, st)
      end
  | _ => Some ("", visited, st)
  end.

(** ** Parameter schemas *)

Inductive JSONSchema :=
| SchemaLeaf (type : string) (enum : option (list string))
    (description : option string)
| SchemaArray (items : JSONSchema) (description : option string)
| SchemaObject (properties : list (string * JSONSchema))
    (required : option (list string)) (description : option string).

Definition setDescription (d : string) (s : JSONSchema) : JSONSchema :=
  match s with
  | SchemaLeaf t e _ => SchemaLeaf t e (Some d)
  | SchemaArray i _ => SchemaArray i (Some d)
  | SchemaObject p r _ => SchemaObject p r (Some d)
  end.

(** [if (x.description) schema.description = x.description] *)
Definition describe (d : option string) (s : JSONSchema) : JSONSchema :=
  match d with
  | Some text => if truthy text then setDescription text s else s
  | None => s
  end.

(** Adding or replacing an own property of an object: an existing key
    keeps its position. *)
Fixpoint setOwnProperty {A : Type} (k : string) (v : A) (l : list (string * A))
    : list (string * A) :=
  match l with
  | [] => [(k, v)]
  | (k', v') :: l' =>
      if String.eqb k k' then (k, v) :: l' else (k', v') :: setOwnProperty k v l'
  end.

(** [obj[k] = v] on a plain object created by [{}].  The list holds the
    own properties in the order they were added.  Assigning to the key
    [__proto__] goes to the accessor inherited from [Object.prototype]:
    it changes the prototype (or nothing) and never adds an own property.
    Nothing modelled here enumerates such an object, so the different
    place [Object.keys] gives to integer-like keys plays no role. *)
Definition setProperty {A : Type} (k : string) (v : A) (l : list (string * A))
    : list (string * A) :=
  if String.eqb k "__proto__" then l else setOwnProperty k v l.

(** [...(required.length > 0 && { required })] *)
Definition requiredOrAbsent (required : list string) : option (list string) :=
  match required with [] => None | _ :: _ => Some required end.

Definition scalarSchemaType (name : string) : string :=
  if String.eqb name "String" || String.eqb name "ID" then "string"
  else if String.eqb name "Int" then "integer"
  else if String.eqb name "Float" then "number"
  else if String.eqb name "Boolean" then "boolean"
  else "string".

(** The loop over the fields of an input object: a field is pushed onto
    [required] when its type is non-null. *)
Fixpoint collectInputFields (rec : GraphQLType -> option JSONSchema)
    (ifields : list (string * GraphQLInputField))
    (properties : list (string * JSONSchema)) (required : list string)
    : option (list (string * JSONSchema) * list string) :=
  match ifields with
  | [] => Some (properties, required)
  | (fieldName, field) :: rest =>
      match rec (ifield_type field) with
      | None => None
      | Some s =>
          collectInputFields rec rest
            (setProperty fieldName (describe (ifield_description field) s) properties)
            (if isNonNullType (ifield_type field)
             then required ++ [fieldName] else required)
      end
  end.

(** The cases of [getJSONSchemaType] on a named type.  The source adds the
    name to the shared [visited] set before the loop and deletes it after,
    so during the loop the set is [{[n]} ∪ visited] and afterwards it is
    [visited] again. *)
Definition namedSchema (tm : TypeMap)
    (rec : gset string -> GraphQLType -> option JSONSchema)
    (visited : gset string) (n : string) : option JSONSchema :=
  match assoc n tm with
  | Some ScalarType => Some (SchemaLeaf (scalarSchemaType n) None None)
  | Some (EnumType values) => Some (SchemaLeaf "string" (Some values) None)
  | Some (InputObjectType ifields) =>
      if decide (n ∈ visited) then
        Some (SchemaLeaf "object" None (Some ("Circular reference to " +:+ n)))
      else
        match collectInputFields (rec ({[n]} ∪ visited)) ifields [] [] with
        | None => None
        | Some (properties, required) =>
            Some (SchemaObject properties (requiredOrAbsent required) None)
        end
  | _ => Some (SchemaLeaf "object" None None)
  end.

(** The wrapper cases of [getJSONSchemaType]: non-null is transparent, a
    list becomes an array node. *)
Fixpoint wrapperSchema (named : string -> option JSONSchema)
    (graphqlType : GraphQLType) : option JSONSchema :=
  match graphqlType with
  | NonNull t => wrapperSchema named t
  | ListOf t =>
      match wrapperSchema named t with
      | Some items => Some (SchemaArray items None)
      | None => None
      end
  | Named n => named n
  end.

(** [fuel] bounds the nesting of input-object expansions. *)
Fixpoint getJSONSchemaType (tm : TypeMap) (fuel : nat)
    (graphqlType : GraphQLType) (visited : gset string) : option JSONSchema :=
  match fuel with
  | O => None
  | S fuel' =>
      wrapperSchema
        (namedSchema tm (fun v t => getJSONSchemaType tm fuel' t v) visited)
        graphqlType
  end.

(** ** Tools *)

Inductive OperationType := Query | Mutation.

Definition operationTypeName (o : OperationType) : string :=
  match o with Query => "query" | Mutation => "mutation" end.

Record InputSchema := {
  schema_type : string;
  schema_properties : list (string * JSONSchema);
  schema_required : option (list string)
}.

Record GraphQLInfo := {
  fieldName : string;
  operationType : OperationType;
  args : list GraphQLArgument;
  returnType : GraphQLType;
  fieldSelection : string
}.

Record MCPTool := {
  name : string;
  description : string;
  inputSchema : InputSchema;
  _graphql : option GraphQLInfo
}.

(** Recursion budgets of the two generators when called from the top:
    the selection generator stops unfolding at depth 4, the parameter
    generator never expands a type that is already being expanded. *)
Definition selectionFuel : nat := 4.
Definition schemaFuel (tm : TypeMap) : nat := S (List.length tm).

(** The loop over [field.args]: an argument is pushed onto [required] when
    its type is non-null and it has no default value. *)
Fixpoint collectArguments (tm : TypeMap) (fargs : list GraphQLArgument)
    (properties : list (string * JSONSchema)) (required : list string)
    : option (list (string * JSONSchema) * list string) :=
  match fargs with
  | [] => Some (properties, required)
  | arg :: rest =>
      match getJSONSchemaType tm (schemaFuel tm) (arg_type arg) ∅ with
      | None => None
      | Some s =>
          collectArguments tm rest
            (setProperty (arg_name arg) (describe (arg_description arg) s) properties)
            (if isNonNullType (arg_type arg) && isUndefined (arg_defaultValue arg)
             then required ++ [arg_name arg] else required)
      end
  end.

Definition generateToolForField (tm : TypeMap) (fname : string)
    (field : GraphQLField) (op : OperationType) (st : Caches)
    : option (MCPTool * Caches) :=
  match collectArguments tm (field_args field) [] [] with
  | None => None
  | Some (properties, required) =>
      match generateFieldSelection tm selectionFuel (field_type field) ∅ 0 st with
      | None => None
      | Some (selection, _, st1) =>
          Some ({| name := operationTypeName op +:+ "_" +:+ fname;
                   description :=
                     if truthyOpt (field_description field)
                     then default "" (field_description field)
                     else "Execute GraphQL " +:+ operationTypeName op +:+ ": " +:+ fname;
                   inputSchema :=
                     {| schema_type := "object";
                        schema_properties := properties;
                        schema_required := requiredOrAbsent required |};
                   _graphql :=
                     Some {| fieldName := fname;
                             operationType := op;
                             args := field_args field;
                             returnType := field_type field;
                             fieldSelection := selection |} |},
                st1)
      end
  end.

(** The pre-generation loop over [schema.getTypeMap()]. *)
Fixpoint prewarm (tm : TypeMap) (types : TypeMap) (st : Caches) : option Caches :=
  match types with
  | [] => Some st
  | (typeName, ObjectType fs) :: rest
  | (typeName, InterfaceType fs) :: rest =>
      if String.prefix "__" typeName then prewarm tm rest st
      else
        match generateFullFieldSelection tm selectionFuel typeName fs 0 st with
        | None => None
        | Some (_, st1) => prewarm tm rest st1
        end
  | _ :: rest => prewarm tm rest st
  end.

(** The loop over the fields of a root type, pushing one tool per field. *)
Fixpoint toolsForFields (tm : TypeMap) (op : OperationType) (fields : FieldMap)
    (tools : list MCPTool) (st : Caches) : option (list MCPTool * Caches) :=
  match fields with
  | [] => Some (tools, st)
  | (fname, field) :: rest =>
      match generateToolForField tm fname field op st with
      | None => None
      | Some (tool, st1) => toolsForFields tm op rest (tools ++ [tool]) st1
      end
  end.

(** [schema.getQueryType()] / [schema.getMutationType()]: the fields of the
    root object type, or nothing when the schema has no such root. *)
Definition rootFields (tm : TypeMap) (root : option string) : FieldMap :=
  match root with
  | Some r =>
      match assoc r tm with
      | Some (ObjectType fs) => fs
      | _ => []
      end
  | None => []
  end.

Definition generateMCPToolsFromSchema (schema : GraphQLSchema) (st : Caches)
    : option (list MCPTool * Caches) :=
  let tm := typeMap schema in
  match prewarm tm tm (clearFieldSelectionCaches st) with
  | None => None
  | Some st1 =>
      match toolsForFields tm Query (rootFields tm (queryType schema)) [] st1 with
      | None => None
      | Some (tools, st2) =>
          toolsForFields tm Mutation (rootFields tm (mutationType schema)) tools st2
      end
  end.

(** [getFieldSelectionCache] *)
Definition getFieldSelectionCache (st : Caches)
    : gmap string string * gmap string string :=
  (typeFieldSelectionCache st, minimalFieldSelectionCache st).

(** ** The call handler *)

(** The [arguments] of a call: absent, [null], or an object with its own
    properties and the properties it inherits through its prototype chain. *)
Inductive CallArgs :=
| ArgsUndefined
| ArgsNull
| ArgsObject (own inherited : list (string * JSValue)).

(** [Object.prototype.hasOwnProperty.call(args, param)] *)
Definition hasOwnProperty (own : list (string * JSValue)) (param : string) : bool :=
  hasKey param own.

(** [args[param]]: own properties first, then the prototype chain. *)
Definition getProperty (own inherited : list (string * JSValue))
    (param : string) : JSValue :=
  match assoc param own with
  | Some v => v
  | None => default JUndefined (assoc param inherited)
  end.

(** The condition under which a required parameter is reported missing. *)
Definition isMissing (cargs : CallArgs) (param : string) : bool :=
  match cargs with
  | ArgsUndefined | ArgsNull => true
  | ArgsObject own inherited =>
      negb (hasOwnProperty own param)
      || isUndefined (getProperty own inherited param)
      || isNull (getProperty own inherited param)
  end.

Definition validateRequiredParameters (tool : MCPTool) (cargs : CallArgs)
    : list string :=
  let requiredParams := default [] (schema_required (inputSchema tool)) in
  List.filter (isMissing cargs) requiredParams.

Definition isSpace (c : ascii) : bool :=
  match nat_of_ascii c with
  | 9 | 10 | 11 | 12 | 13 | 32 => true
  | _ => false
  end.

Fixpoint trimStart (s : string) : string :=
  match s with
  | EmptyString => EmptyString
  | String c s' => if isSpace c then trimStart s' else s
  end.

(** [String.prototype.trim] on ASCII text. *)
Definition trim (s : string) : string :=
  String.rev (trimStart (String.rev (trimStart s))).

Definition buildGraphQLOperation (graphqlInfo : GraphQLInfo) : string :=
  let variableDeclarations :=
    join ", " (map (fun arg =>
      "$" +:+ arg_name arg +:+ ": " +:+ getGraphQLVariableType (arg_type arg))
      (args graphqlInfo)) in
  let variableUsage :=
    join ", " (map (fun arg => arg_name arg +:+ ": $" +:+ arg_name arg)
      (args graphqlInfo)) in
  let operation :=
    nl +:+ "      " +:+ operationTypeName (operationType graphqlInfo) +:+ " "
    +:+ fieldName graphqlInfo +:+ "Operation"
    +:+ (if truthy variableDeclarations
         then "(" +:+ variableDeclarations +:+ ")" else "")
    +:+ " {" +:+ nl +:+ "        " +:+ fieldName graphqlInfo
    +:+ (if truthy variableUsage then "(" +:+ variableUsage +:+ ")" else "")
    +:+ " " +:+ fieldSelection graphqlInfo +:+ nl +:+ "      }" +:+ nl +:+ "    " in
  trim operation.

(** What the upstream client does with a request: it resolves (the text is
    the pretty-printed response), rejects with an [Error] carrying a
    message, or rejects with something that is not an [Error]. *)
Inductive Response :=
| Resolved (text : string)
| RejectedError (message : string)
| RejectedOther.

Record CallToolResult := {
  content_text : string;
  isError : bool
}.

(** Outcome of the [try] block: a returned text or a thrown value. *)
Inductive TryOutcome :=
| Returned (text : string)
| ThrownError (message : string)
| ThrownOther.

Section CallHandler.

(** [graphqlClient.request(query, args)], an external collaborator. *)
Variable request : string -> CallArgs -> Response.

Definition tryCallTool (tools : list MCPTool) (toolName : string)
    (cargs : CallArgs) : TryOutcome :=
  match List.find (fun t => String.eqb (name t) toolName) tools with
  | None => ThrownError ("Unknown tool: " +:+ toolName)
  | Some tool =>
      match _graphql tool with
      | None => ThrownError ("Unknown tool: " +:+ toolName)
      | Some graphqlInfo =>
          let missingParams := validateRequiredParameters tool cargs in
          if Nat.ltb 0 (List.length missingParams) then
            ThrownError ("Missing required parameters: "
                         +:+ join ", " missingParams)
          else
            match request (buildGraphQLOperation graphqlInfo) cargs with
            | Resolved text => Returned text
            | RejectedError message => ThrownError message
            | RejectedOther => ThrownOther
            end
      end
  end.

(** The [CallToolRequestSchema] handler: whatever the [try] block throws
    is turned into a result with [isError: true]. *)
Definition callTool (tools : list MCPTool) (toolName : string)
    (cargs : CallArgs) : CallToolResult :=
  match tryCallTool tools toolName cargs with
  | Returned text => {| content_text := text; isError := false |}
  | ThrownError errorMessage =>
      {| content_text := "Error executing " +:+ toolName +:+ ": " +:+ errorMessage;
         isError := true |}
  | ThrownOther =>
      {| content_text := "Error executing " +:+ toolName +:+ ": Unknown error";
         isError := true |}
  end.

End CallHandler.

(** ** The plain tool list of [introspect.ts] *)

(** [generateToolsFromSchema] describes every root field by a tool that
    takes one free-form [variables] object and carries no GraphQL details. *)
Definition plainTool (op : OperationType) (fname : string)
    (field : GraphQLField) : MCPTool :=
  {| name := operationTypeName op +:+ "_" +:+ fname;
     description :=
       if truthyOpt (field_description field)
       then default "" (field_description field)
       else "Execute GraphQL " +:+ operationTypeName op +:+ ": " +:+ fname;
     inputSchema :=
       {| schema_type := "object";
          schema_properties :=
            [("variables",
              SchemaLeaf "object" None
                (Some ("Variables for the GraphQL " +:+ operationTypeName op)))];
          schema_required := None |};
     _graphql := None |}.

Definition generateToolsFromSchema (schema : GraphQLSchema) : list MCPTool :=
  map (fun f => plainTool Query (fst f) (snd f))
    (rootFields (typeMap schema) (queryType schema))
  ++ map (fun f => plainTool Mutation (fst f) (snd f))
       (rootFields (typeMap schema) (mutationType schema)).

(** ** The call handler of [http-server.ts] *)

(** [s.slice(n)] *)
Fixpoint skip (n : nat) (s : string) : string :=
  match n, s with
  | O, _ => s
  | S n', String _ s' => skip n' s'
  | S _, EmptyString => EmptyString
  end.

(** [name.replace(/^(query_|mutation_)/, '')] *)
Definition stripToolPrefix (toolName : string) : string :=
  if String.prefix "query_" toolName then skip 6 toolName
  else if String.prefix "mutation_" toolName then skip 9 toolName
  else toolName.

(** [Object.keys(variables || {})] *)
Definition variableKeys (variables : CallArgs) : list string :=
  match variables with
  | ArgsObject own _ => map fst own
  | _ => []
  end.

(** This server declares every variable as [String], selects nothing and
    does not trim the text. *)
Definition httpBuildGraphQLOperation (type operationName : string)
    (variables : CallArgs) : string :=
  let variableDeclarations :=
    join ", " (map (fun key => "$" +:+ key +:+ ": String") (variableKeys variables)) in
  let variableUsage :=
    join ", " (map (fun key => key +:+ ": $" +:+ key) (variableKeys variables)) in
  nl +:+ "      " +:+ type +:+ " " +:+ operationName +:+ "Operation"
  +:+ (if truthy variableDeclarations
       then "(" +:+ variableDeclarations +:+ ")" else "")
  +:+ " {" +:+ nl +:+ "        " +:+ operationName
  +:+ (if truthy variableUsage then "(" +:+ variableUsage +:+ ")" else "")
  +:+ nl +:+ "      }" +:+ nl +:+ "    ".

Section HttpCallHandler.

Variable request : string -> CallArgs -> Response.

Definition httpTryCallTool (toolName : string) (cargs : CallArgs) : TryOutcome :=
  let isQuery := String.prefix "query_" toolName in
  let isMutation := String.prefix "mutation_" toolName in
  if negb isQuery && negb isMutation then
    ThrownError ("Unknown tool: " +:+ toolName)
  else
    let operationName := stripToolPrefix toolName in
    let operationType := if isQuery then "query" else "mutation" in
    match request (httpBuildGraphQLOperation operationType operationName cargs)
            cargs with
    | Resolved text => Returned text
    | RejectedError message => ThrownError message
    | RejectedOther => ThrownOther
    end.

Definition httpCallTool (toolName : string) (cargs : CallArgs) : CallToolResult :=
  match httpTryCallTool toolName cargs with
  | Returned text => {| content_text := text; isError := false |}
  | ThrownError errorMessage =>
      {| content_text := "Error executing " +:+ toolName +:+ ": " +:+ errorMessage;
         isError := true |}
  | ThrownOther =>
      {| content_text := "Error executing " +:+ toolName +:+ ": Unknown error";
         isError := true |}
  end.

End HttpCallHandler.

(** ** Request headers from the environment ([main] of [cli.ts]) *)

(** [s.replace(pattern, '')] with a string pattern: the first occurrence
    is removed. *)
Fixpoint removeFirst (pattern s : string) : string :=
  if String.prefix pattern s then skip (String.length pattern) s
  else match s with
       | EmptyString => EmptyString
       | String c s' => String c (removeFirst pattern s')
       end.

(** [s.replace(/_/g, '-')] *)
Fixpoint dashes (s : string) : string :=
  match s with
  | EmptyString => EmptyString
  | String c s' =>
      String (if Ascii.eqb c "_" then "-"%char else c) (dashes s')
  end.

Definition headerNameOf (key : string) : string :=
  dashes (removeFirst "GRAPHQL_HEADER_" key).

(** The loop over [Object.keys(process.env)]. *)
Fixpoint addCustomHeaders (env : list (string * string))
    (headers : list (string * string)) : list (string * string) :=
  match env with
  | [] => headers
  | (key, value) :: rest =>
      addCustomHeaders rest
        (if String.prefix "GRAPHQL_HEADER_" key
         then setProperty (headerNameOf key) value headers
         else headers)
  end.

(** [config.headers] as [main] fills it: the authorization header first,
    then one header per [GRAPHQL_HEADER_*] variable. *)
Definition configHeaders (env : list (string * string)) : list (string * string) :=
  addCustomHeaders env
    (match assoc "GRAPHQL_AUTH_HEADER" env with
     | Some v => if truthy v then [("Authorization", v)] else []
     | None => []
     end).

(** * Notions used in the statements *)

(** ** Brace counting *)

Fixpoint count_char (c : ascii) (s : string) : nat :=
  match s with
  | EmptyString => 0
  | String c' s' => (if Ascii.eqb c c' then 1 else 0) + count_char c s'
  end.

Definition opens (s : string) : nat := count_char "{" s.
Definition closes (s : string) : nat := count_char "}" s.

(** Equal numbers of opening and closing braces. *)
Definition balanced (s : string) : Prop := opens s = closes s.

Definition braceFree (s : string) : bool :=
  Nat.eqb (opens s) 0 && Nat.eqb (closes s) 0.

Definition typeFields (d : TypeDef) : FieldMap :=
  match d with
  | ObjectType fs | InterfaceType fs => fs
  | _ => []
  end.

(** GraphQL names are made of letters, digits and underscores; all the
    brace-counting argument needs is that no field name contains a brace. *)
Definition wellNamedFields (fields : FieldMap) : bool :=
  forallb (fun f => braceFree (fst f)) fields.

Definition wellNamed (tm : TypeMap) : bool :=
  forallb (fun p => wellNamedFields (typeFields (snd p))) tm.

(** Every cached selection is balanced. *)
Definition cachesBalanced (st : Caches) : Prop :=
  (forall k s, typeFieldSelectionCache st !! k = Some s -> balanced s) /\
  (forall k s, minimalFieldSelectionCache st !! k = Some s -> balanced s).

(** What the loop needs from the recursive call. *)
Definition keepsBalance (rec : Generator) : Prop :=
  forall n fs depth st s st',
    wellNamedFields fs = true -> cachesBalanced st ->
    rec n fs depth st = Some (s, st') ->
    balanced s /\ cachesBalanced st'.

(** Names bound in the type map. *)
Definition typeNames (tm : TypeMap) : gset string := list_to_set (map fst tm).

Definition selectionsBalanced (tools : list MCPTool) : Prop :=
  Forall (fun tool => forall info,
            _graphql tool = Some info -> balanced (fieldSelection info)) tools.

Definition toolNameFor (op : OperationType) (fname : string) : string :=
  operationTypeName op +:+ "_" +:+ fname.

(** Every tool is named after its kind and field. *)
Definition wellNamedTool (tool : MCPTool) : Prop :=
  exists info, _graphql tool = Some info /\
    name tool = toolNameFor (operationType info) (fieldName info).


(** A parameter is supplied when the argument object has it as an own
    property whose value is neither [undefined] nor [null]. *)
Definition supplied (cargs : CallArgs) (param : string) : Prop :=
  exists own inherited v,
    cargs = ArgsObject own inherited /\ assoc param own = Some v /\
    v <> JUndefined /\ v <> JNull.

(** [rec'] returns whatever [rec] returns. *)
Definition extends (rec rec' : Generator) : Prop :=
  forall n fs depth st r, rec n fs depth st = Some r -> rec' n fs depth st = Some r.

(** Entries of either cache that are present when a call to the generator
    starts are still there, unchanged, when it returns. *)
Definition keepsEntries (st st' : Caches) : Prop :=
  (forall k v, typeFieldSelectionCache st !! k = Some v ->
               typeFieldSelectionCache st' !! k = Some v) /\
  (forall k v, minimalFieldSelectionCache st !! k = Some v ->
               minimalFieldSelectionCache st' !! k = Some v).

(** ** Further notions *)

(** A type name without the characters of the wrapper syntax. *)
Definition plainName (n : string) : bool :=
  Nat.eqb (count_char "!" n) 0 && Nat.eqb (count_char "[" n) 0
  && Nat.eqb (count_char "]" n) 0.

Fixpoint plainNames (t : GraphQLType) : bool :=
  match t with
  | NonNull t' | ListOf t' => plainNames t'
  | Named n => plainName n
  end.

Definition isComposite (d : TypeDef) : bool :=
  match d with
  | ObjectType _ | InterfaceType _ => true
  | _ => false
  end.

(** The field selection of every tool whose return type unwraps to an
    object or interface type is the text cached for that type. *)
Definition selectionsCached (tm : TypeMap) (st : Caches) (tools : list MCPTool) : Prop :=
  Forall (fun tool => forall info n d,
            _graphql tool = Some info ->
            stripWrappers (returnType info) = Named n ->
            assoc n tm = Some d -> isComposite d = true ->
            typeFieldSelectionCache st !! n = Some (fieldSelection info)) tools.

(** The arguments the tool generator marks as required. *)
Definition requiredArguments (fargs : list GraphQLArgument) : list string :=
  map arg_name
    (List.filter (fun arg => isNonNullType (arg_type arg)
                             && isUndefined (arg_defaultValue arg)) fargs).

Fixpoint allSpaces (s : string) : bool :=
  match s with
  | EmptyString => true
  | String c s' => isSpace c && allSpaces s'
  end.

(** [(<declarations>)], or nothing when there is no argument. *)
Definition declaredVariables (fargs : list GraphQLArgument) : string :=
  let variableDeclarations :=
    join ", " (map (fun arg =>
      "$" +:+ arg_name arg +:+ ": " +:+ getGraphQLVariableType (arg_type arg))
      fargs) in
  if truthy variableDeclarations then "(" +:+ variableDeclarations +:+ ")" else "".

(** [(<bindings>)], or nothing when there is no argument. *)
Definition boundVariables (fargs : list GraphQLArgument) : string :=
  let variableUsage :=
    join ", " (map (fun arg => arg_name arg +:+ ": $" +:+ arg_name arg) fargs) in
  if truthy variableUsage then "(" +:+ variableUsage +:+ ")" else "".

(** The operation text without the surrounding white space of the
    template. *)
Definition operationText (graphqlInfo : GraphQLInfo) : string :=
  operationTypeName (operationType graphqlInfo) +:+ " "
  +:+ fieldName graphqlInfo +:+ "Operation"
  +:+ declaredVariables (args graphqlInfo)
  +:+ " {" +:+ nl +:+ "        " +:+ fieldName graphqlInfo
  +:+ boundVariables (args graphqlInfo)
  +:+ " " +:+ fieldSelection graphqlInfo +:+ nl +:+ "      }".

(** What the [try] block does once validation has passed. *)
Definition upstreamOutcome (r : Response) : TryOutcome :=
  match r with
  | Resolved text => Returned text
  | RejectedError message => ThrownError message
  | RejectedOther => ThrownOther
  end.

(** [n] is listed in the type map as an object or interface type with
    the fields [fs]. *)
Definition listed (tm : TypeMap) (n : string) (fs : FieldMap) : Prop :=
  (n, ObjectType fs) ∈ tm \/ (n, InterfaceType fs) ∈ tm.

(** Every entry of the full cache satisfies [F] and every entry of the
    minimal cache satisfies [M]. *)
Definition cachesSatisfy (F M : string -> string -> Prop) (st : Caches) : Prop :=
  (forall k v, typeFieldSelectionCache st !! k = Some v -> F k v) /\
  (forall k v, minimalFieldSelectionCache st !! k = Some v -> M k v).

(** What [generateFieldSelection] can return when the full cache entries
    satisfy [F]. *)
Definition selectionSatisfies (F : string -> string -> Prop) (s : string) : Prop :=
  s = "" \/ s = "{ __typename }" \/ exists n, F n s.

(** The minimal selection computed from a field map. *)
Definition minimalOf (fields : FieldMap) : string :=
  if hasKey "documentId" fields then "{ documentId }"
  else if hasKey "id" fields then "{ id }"
  else "".

Definition minimalForm (s : string) : Prop :=
  s = "{ documentId }" \/ s = "{ id }" \/ s = "".

(** Empty, or enclosed in a pair of braces. *)
Definition braced (s : string) : Prop :=
  s = "" \/ exists body, s = "{" +:+ body +:+ "}".

(** What the field loop pushes for a field whose type is not an object or
    interface type. *)
Definition directEntry (tm : TypeMap) (f : string * GraphQLField) : string :=
  match classify tm (stripWrappers (field_type (snd f))) with
  | CkUnion => fst f +:+ " { __typename }"
  | _ => fst f
  end.

Definition isDirect (tm : TypeMap) (f : string * GraphQLField) : bool :=
  match classify tm (stripWrappers (field_type (snd f))) with
  | CkComposite _ _ => false
  | _ => true
  end.

(** Number of list layers of a type and the name under all its layers. *)
Fixpoint listDepth (t : GraphQLType) : nat :=
  match t with
  | NonNull t' => listDepth t'
  | ListOf t' => S (listDepth t')
  | Named _ => 0
  end.

Fixpoint baseName (t : GraphQLType) : string :=
  match t with
  | NonNull t' | ListOf t' => baseName t'
  | Named n => n
  end.

Fixpoint arrays (k : nat) (s : JSONSchema) : JSONSchema :=
  match k with
  | O => s
  | S k' => SchemaArray (arrays k' s) None
  end.

(** The schema of a named type that is not an input object. *)
Definition leafSchema (tm : TypeMap) (n : string) : option JSONSchema :=
  match assoc n tm with
  | Some ScalarType => Some (SchemaLeaf (scalarSchemaType n) None None)
  | Some (EnumType values) => Some (SchemaLeaf "string" (Some values) None)
  | Some (InputObjectType _) => None
  | _ => Some (SchemaLeaf "object" None None)
  end.

(** * Sample data *)

Definition mkField (t : GraphQLType) : GraphQLField :=
  {| field_type := t; field_args := []; field_description := None |}.

Definition emptyCaches : Caches :=
  {| typeFieldSelectionCache := ∅; minimalFieldSelectionCache := ∅ |}.

Definition userFields : FieldMap :=
  [("id", mkField (NonNull (Named "ID")));
   ("posts", mkField (ListOf (Named "Post")))].

Definition postFields : FieldMap :=
  [("id", mkField (NonNull (Named "ID")));
   ("author", mkField (Named "User"))].

Definition mkArg (n : string) (t : GraphQLType) (d : JSValue) : GraphQLArgument :=
  {| arg_name := n; arg_type := t; arg_description := None;
     arg_defaultValue := d |}.

Definition mkInputField (t : GraphQLType) (d : JSValue) : GraphQLInputField :=
  {| ifield_type := t; ifield_description := None; ifield_defaultValue := d |}.

(** [type User { id: ID!  posts: [Post] }], [type Post { id: ID!  author: User }],
    [input PostOptions { draft: Boolean! = false  slug: String!  note: String }],
    a Query root with [user(id: ID!)] and [users(limit: Int = 10)], and a
    Mutation root with
    [createPost(title: String!, authorId: ID!, tags: [String!]! = [], options: PostOptions)]. *)
Definition forumSchema : GraphQLSchema :=
  {| typeMap :=
       [("Query", ObjectType
           [("user", {| field_type := Named "User";
                        field_args := [mkArg "id" (NonNull (Named "ID")) JUndefined];
                        field_description := None |});
            ("users", {| field_type := ListOf (Named "User");
                         field_args := [mkArg "limit" (Named "Int") (JNumber 10)];
                         field_description := Some "List users" |})]);
        ("Mutation", ObjectType
           [("createPost",
             {| field_type := Named "Post";
                field_args :=
                  [mkArg "title" (NonNull (Named "String")) JUndefined;
                   mkArg "authorId" (NonNull (Named "ID")) JUndefined;
                   mkArg "tags" (NonNull (ListOf (NonNull (Named "String"))))
                     (JArray []);
                   mkArg "options" (Named "PostOptions") JUndefined];
                field_description := None |})]);
        ("ID", ScalarType); ("Int", ScalarType); ("String", ScalarType);
        ("Boolean", ScalarType);
        ("PostOptions", InputObjectType
           [("draft", mkInputField (NonNull (Named "Boolean")) (JBool false));
            ("slug", mkInputField (NonNull (Named "String")) JUndefined);
            ("note", mkInputField (Named "String") JUndefined)]);
        ("User", ObjectType userFields);
        ("Post", ObjectType postFields)];
     queryType := Some "Query";
     mutationType := Some "Mutation" |}.

(** The same two object types alone, [Post] listed before [User]. *)
Definition postFirstTypes : TypeMap :=
  [("ID", ScalarType);
   ("Post", ObjectType postFields);
   ("User", ObjectType userFields)].

(** A chain of five object types, the last one without [id]. *)
Definition chainTypes : TypeMap :=
  [("A", ObjectType [("id", mkField (Named "ID")); ("b", mkField (Named "B"))]);
   ("B", ObjectType [("id", mkField (Named "ID")); ("c", mkField (Named "C"))]);
   ("C", ObjectType [("id", mkField (Named "ID")); ("d", mkField (Named "D"))]);
   ("D", ObjectType [("id", mkField (Named "ID")); ("e", mkField (Named "E"))]);
   ("E", ObjectType [("name", mkField (Named "String"))]);
   ("ID", ScalarType); ("String", ScalarType)].

(** A chain of four object types under a Query root, the last one without
    [id]: [Query { b: B }], [B { id c: C }], [C { id d: D }],
    [D { id e: E }], [E { name }]. *)
Definition chainSchema : GraphQLSchema :=
  {| typeMap :=
       [("Query", ObjectType [("b", mkField (Named "B"))]);
        ("B", ObjectType [("id", mkField (Named "ID")); ("c", mkField (Named "C"))]);
        ("C", ObjectType [("id", mkField (Named "ID")); ("d", mkField (Named "D"))]);
        ("D", ObjectType [("id", mkField (Named "ID")); ("e", mkField (Named "E"))]);
        ("E", ObjectType [("name", mkField (Named "String"))]);
        ("ID", ScalarType); ("String", ScalarType)];
     queryType := Some "Query";
     mutationType := None |}.

(** Two object types without [id] that refer to each other. *)
Definition loopTypes : TypeMap :=
  [("T", ObjectType [("x", mkField (Named "X"));
                     ("name", mkField (Named "String"))]);
   ("X", ObjectType [("t", mkField (Named "T"));
                     ("name", mkField (Named "String"))]);
   ("String", ScalarType)].

(** The tool the build generates for [createPost], without its selection
    details. *)
Definition createPostInfo : GraphQLInfo :=
  {| fieldName := "createPost";
     operationType := Mutation;
     args := [mkArg "title" (NonNull (Named "String")) JUndefined;
              mkArg "authorId" (NonNull (Named "ID")) JUndefined];
     returnType := Named "Post";
     fieldSelection := "{ id }" |}.

Definition createPostTool : MCPTool :=
  {| name := "mutation_createPost";
     description := "Execute GraphQL mutation: createPost";
     inputSchema :=
       {| schema_type := "object";
          schema_properties :=
            [("title", SchemaLeaf "string" None None);
             ("authorId", SchemaLeaf "string" None None)];
          schema_required := Some ["title"; "authorId"] |};
     _graphql := Some createPostInfo |}.

(** A tool with four required parameters, called with an empty string,
    [false], [0] and [NaN]. *)
Definition probeInfo : GraphQLInfo :=
  {| fieldName := "probe";
     operationType := Query;
     args := [mkArg "text" (NonNull (Named "String")) JUndefined;
              mkArg "flag" (NonNull (Named "Boolean")) JUndefined;
              mkArg "count" (NonNull (Named "Int")) JUndefined;
              mkArg "ratio" (NonNull (Named "Float")) JUndefined];
     returnType := Named "String";
     fieldSelection := "" |}.

Definition probeTool : MCPTool :=
  {| name := "query_probe";
     description := "Execute GraphQL query: probe";
     inputSchema :=
       {| schema_type := "object";
          schema_properties :=
            [("text", SchemaLeaf "string" None None);
             ("flag", SchemaLeaf "boolean" None None);
             ("count", SchemaLeaf "integer" None None);
             ("ratio", SchemaLeaf "number" None None)];
          schema_required := Some ["text"; "flag"; "count"; "ratio"] |};
     _graphql := Some probeInfo |}.

Definition probeArgs : list (string * JSValue) :=
  [("text", JString ""); ("flag", JBool false);
   ("count", JNumber 0); ("ratio", JNaN)].

(** An upstream that answers every request with an empty object. *)
Definition echoRequest (query : string) (cargs : CallArgs) : Response :=
  Resolved "{}".

(** A field with an argument named [__proto__]:
    [lookup(__proto__: ID!, id: ID!, limit: Int): User]. *)
Definition lookupField : GraphQLField :=
  {| field_type := Named "User";
     field_args :=
       [mkArg "__proto__" (NonNull (Named "ID")) JUndefined;
        mkArg "id" (NonNull (Named "ID")) JUndefined;
        mkArg "limit" (Named "Int") JUndefined];
     field_description := None |}.

(** * Properties *)

(** ** Strings *)

Lemma count_char_app c s1 s2 :
  count_char c (s1 +:+ s2) = count_char c s1 + count_char c s2.
Proof.
  induction s1 as [|a s1 IH]; [reflexivity|].
  change (String a s1 +:+ s2) with (String a (s1 +:+ s2)).
  cbn [count_char]. rewrite IH. lia.
Qed.

Lemma count_char_repeat_spaces c n :
  c <> " "%char -> count_char c (repeat_str "  " n) = 0.
Proof.
  intros Hc. induction n as [|n IH]; [reflexivity|].
  cbn [repeat_str]. rewrite count_char_app, IH.
  cbn [count_char]. destruct (Ascii.eqb_spec c " "); [contradiction|lia].
Qed.

Lemma join_cons sep x y l :
  join sep (x :: y :: l) = x +:+ sep +:+ join sep (y :: l).
Proof. reflexivity. Qed.

Lemma count_char_join c sep l :
  count_char c sep = 0 ->
  count_char c (join sep l) = sum_list (map (count_char c) l).
Proof.
  intros Hsep. induction l as [|x [|y l] IH]; [reflexivity| |].
  - cbn. lia.
  - rewrite join_cons, !count_char_app, IH, Hsep. cbn. lia.
Qed.

Lemma count_char_nl c : c <> ascii_of_nat 10 -> count_char c nl = 0.
Proof.
  intros Hc. unfold nl. cbn [count_char].
  destruct (Ascii.eqb_spec c (ascii_of_nat 10)); [contradiction|reflexivity].
Qed.

Lemma balanced_app s1 s2 : balanced s1 -> balanced s2 -> balanced (s1 +:+ s2).
Proof. unfold balanced, opens, closes. rewrite !count_char_app. lia. Qed.

Lemma braceFree_spec s : braceFree s = true -> opens s = 0 /\ closes s = 0.
Proof.
  unfold braceFree. intros H. apply andb_prop in H as [H1 H2].
  split; by apply Nat.eqb_eq.
Qed.

Lemma braceFree_balanced s : braceFree s = true -> balanced s.
Proof. intros [H1 H2]%braceFree_spec. unfold balanced. lia. Qed.

Lemma balanced_sum l :
  Forall balanced l ->
  sum_list (map (count_char "{") l) = sum_list (map (count_char "}") l).
Proof.
  induction 1 as [|x l Hx _ IH]; [reflexivity|].
  cbn. unfold balanced, opens, closes in Hx. lia.
Qed.

(** The template adds exactly one brace of each kind around the entries. *)
Lemma formatSelection_balanced depth l :
  Forall balanced l -> balanced (formatSelection depth l).
Proof.
  intros Hl. unfold formatSelection. destruct l as [|x l]; [reflexivity|].
  unfold balanced, opens, closes.
  rewrite !count_char_app, !count_char_join, !count_char_repeat_spaces,
    !count_char_nl by (try rewrite count_char_app, count_char_repeat_spaces,
                         count_char_nl; done).
  rewrite (balanced_sum _ Hl). cbn. lia.
Qed.

(** ** The minimal selection *)

Lemma getMinimalFieldSelection_full n fs st :
  typeFieldSelectionCache (snd (getMinimalFieldSelection n fs st))
  = typeFieldSelectionCache st.
Proof.
  unfold getMinimalFieldSelection.
  destruct (minimalFieldSelectionCache st !! n); reflexivity.
Qed.

Lemma getMinimalFieldSelection_cached n fs st :
  minimalFieldSelectionCache (snd (getMinimalFieldSelection n fs st)) !! n
  = Some (fst (getMinimalFieldSelection n fs st)).
Proof.
  unfold getMinimalFieldSelection.
  destruct (minimalFieldSelectionCache st !! n) eqn:E; cbn; [exact E|].
  apply lookup_insert_eq.
Qed.

(** An entry of the minimal cache is written only when the key is absent. *)
Lemma getMinimalFieldSelection_keeps n fs st k s :
  minimalFieldSelectionCache st !! k = Some s ->
  minimalFieldSelectionCache (snd (getMinimalFieldSelection n fs st)) !! k = Some s.
Proof.
  intros Hk. unfold getMinimalFieldSelection.
  destruct (minimalFieldSelectionCache st !! n) eqn:E; cbn; [exact Hk|].
  rewrite lookup_insert_ne; [exact Hk|]. intros ->. congruence.
Qed.

Lemma getMinimalFieldSelection_balanced n fs st :
  cachesBalanced st ->
  balanced (fst (getMinimalFieldSelection n fs st)) /\
  cachesBalanced (snd (getMinimalFieldSelection n fs st)).
Proof.
  intros [Hf Hm]. unfold getMinimalFieldSelection.
  destruct (minimalFieldSelectionCache st !! n) eqn:E; cbn.
  - split; [by eapply Hm | by split].
  - assert (Hb : balanced (if hasKey "documentId" fs then "{ documentId }"
                           else if hasKey "id" fs then "{ id }" else "")).
    { destruct (hasKey "documentId" fs); [reflexivity|].
      destruct (hasKey "id" fs); reflexivity. }
    split; [exact Hb|]. split; [exact Hf|].
    intros k s. cbn. rewrite lookup_insert. case_decide.
    + intros [= <-]. exact Hb.
    + apply Hm.
Qed.

(** ** The selection generator *)

Section Synthesizer.

Variable tm : TypeMap.

(** Whatever it returns, the generator leaves under the type's name. *)
Lemma generateFullFieldSelection_cached fuel n fs depth st s st' :
  generateFullFieldSelection tm fuel n fs depth st = Some (s, st') ->
  typeFieldSelectionCache st' !! n = Some s.
Proof.
  destruct fuel; cbn [generateFullFieldSelection];
    destruct (typeFieldSelectionCache st !! n) eqn:E;
    try (intros [= <- <-]; exact E).
  - destruct (Nat.ltb 3 depth); [|discriminate].
    destruct (getMinimalFieldSelection n fs st).
    intros [= <- <-]. cbn. apply lookup_insert_eq.
  - destruct (Nat.ltb 3 depth).
    + destruct (getMinimalFieldSelection n fs st).
      intros [= <- <-]. cbn. apply lookup_insert_eq.
    + destruct (collectFieldSelections _ _ _ _ _ _ _) as [[l st1]|];
        [|discriminate].
      intros [= <- <-]. cbn. apply lookup_insert_eq.
Qed.

(** The loop returns as soon as every recursive call does. *)
Lemma collectFieldSelections_total (rec : Generator) typeName depth fields :
  (forall n fs st, is_Some (rec n fs (depth + 1) st)) ->
  forall acc st,
    is_Some (collectFieldSelections tm rec typeName depth fields acc st).
Proof.
  intros Hrec. induction fields as [|[fname field] rest IH]; intros acc st.
  - cbn. eauto.
  - cbn [collectFieldSelections].
    assert (Hentry : is_Some
              (fieldSelectionEntry tm rec typeName depth fname field st)).
    { unfold fieldSelectionEntry.
      destruct (classify tm _) as [cn cfs| |]; [|eauto..].
      destruct (String.eqb cn typeName).
      - destruct (getMinimalFieldSelection cn cfs st) as [m st1].
        destruct (truthy m); eauto.
      - destruct (Hrec cn cfs st) as [[s st1] ->].
        destruct (truthy s); eauto. }
    destruct Hentry as [[e st1] ->]. apply IH.
Qed.

(** Termination: a call at depth [d] nests at most [4 - d] further
    calls, so four units of fuel are enough from the top. *)
Lemma generateFullFieldSelection_total fuel :
  forall n fs depth st,
    4 <= fuel + depth ->
    is_Some (generateFullFieldSelection tm fuel n fs depth st).
Proof.
  induction fuel as [|fuel IH]; intros n fs depth st Hd;
    cbn [generateFullFieldSelection];
    destruct (typeFieldSelectionCache st !! n); eauto.
  - destruct (Nat.ltb_spec 3 depth); [|lia].
    destruct (getMinimalFieldSelection n fs st). eauto.
  - destruct (Nat.ltb 3 depth).
    + destruct (getMinimalFieldSelection n fs st). eauto.
    + destruct (collectFieldSelections_total
                  (generateFullFieldSelection tm fuel) n depth fs) with
        (acc := @nil string) (st := st) as [[l st1] ->]; [|eauto].
      intros n' fs' st'. apply IH. lia.
Qed.

(** Beyond the ceiling nothing is unfolded: an uncached type gets its
    minimal selection, stored as its full selection, with no fuel at all. *)
Lemma generateFullFieldSelection_ceiling fuel n fs depth st :
  3 < depth ->
  typeFieldSelectionCache st !! n = None ->
  generateFullFieldSelection tm fuel n fs depth st
  = Some (fst (getMinimalFieldSelection n fs st),
          setFull n (fst (getMinimalFieldSelection n fs st))
            (snd (getMinimalFieldSelection n fs st))).
Proof.
  intros Hd Hn.
  destruct fuel; cbn [generateFullFieldSelection]; rewrite Hn;
    destruct (Nat.ltb_spec 3 depth); try lia;
    destruct (getMinimalFieldSelection n fs st); reflexivity.
Qed.

Lemma fieldSelectionEntry_extends (rec rec' : Generator) typeName depth fname field st r :
  extends rec rec' ->
  fieldSelectionEntry tm rec typeName depth fname field st = Some r ->
  fieldSelectionEntry tm rec' typeName depth fname field st = Some r.
Proof.
  intros Hext. unfold fieldSelectionEntry.
  destruct (classify tm _) as [cn cfs| |]; [|done..].
  destruct (String.eqb cn typeName); [done|].
  destruct (rec cn cfs (depth + 1) st) as [[s st1]|] eqn:Er; [|discriminate].
  by rewrite (Hext _ _ _ _ _ Er).
Qed.

Lemma collectFieldSelections_extends (rec rec' : Generator) typeName depth fields :
  extends rec rec' ->
  forall acc st r,
    collectFieldSelections tm rec typeName depth fields acc st = Some r ->
    collectFieldSelections tm rec' typeName depth fields acc st = Some r.
Proof.
  intros Hext. induction fields as [|[fname field] rest IH]; intros acc st r;
    cbn [collectFieldSelections]; [done|].
  destruct (fieldSelectionEntry tm rec typeName depth fname field st)
    as [[e st1]|] eqn:Ee; [|discriminate].
  rewrite (fieldSelectionEntry_extends _ _ _ _ _ _ _ _ Hext Ee). apply IH.
Qed.

(** A result obtained with some fuel is the result with any larger fuel:
    running out of fuel is the only effect the fuel has. *)
Lemma generateFullFieldSelection_fuel_mono fuel :
  forall fuel', fuel <= fuel' ->
    extends (generateFullFieldSelection tm fuel) (generateFullFieldSelection tm fuel').
Proof.
  induction fuel as [|fuel IH]; intros fuel' Hle n fs depth st r.
  - destruct fuel'; cbn [generateFullFieldSelection]; [done|].
    destruct (typeFieldSelectionCache st !! n); [done|].
    destruct (Nat.ltb 3 depth); [done|discriminate].
  - destruct fuel' as [|fuel']; [lia|]. cbn [generateFullFieldSelection].
    destruct (typeFieldSelectionCache st !! n); [done|].
    destruct (Nat.ltb 3 depth); [done|].
    destruct (collectFieldSelections tm (generateFullFieldSelection tm fuel)
                n depth fs [] st) as [[l st1]|] eqn:Ec; [|discriminate].
    rewrite (collectFieldSelections_extends _ _ _ _ _
               (IH fuel' ltac:(lia)) _ _ _ Ec). done.
Qed.

Lemma keepsEntries_refl st : keepsEntries st st.
Proof. by split. Qed.

Lemma keepsEntries_trans st1 st2 st3 :
  keepsEntries st1 st2 -> keepsEntries st2 st3 -> keepsEntries st1 st3.
Proof. intros [Hf Hm] [Hf' Hm']. split; eauto. Qed.

Lemma getMinimalFieldSelection_keepsEntries n fs st :
  keepsEntries st (snd (getMinimalFieldSelection n fs st)).
Proof.
  split; intros k v Hk.
  - by rewrite getMinimalFieldSelection_full.
  - by apply getMinimalFieldSelection_keeps.
Qed.

Lemma setFull_keepsEntries n s st st1 :
  typeFieldSelectionCache st !! n = None ->
  keepsEntries st st1 -> keepsEntries st (setFull n s st1).
Proof.
  intros Hn [Hf Hm]. split; [|exact Hm].
  intros k v Hk. cbn. rewrite lookup_insert_ne; [by apply Hf|].
  intros ->. congruence.
Qed.

Lemma collectFieldSelections_keepsEntries (rec : Generator) typeName depth fields :
  (forall n fs d st s st', rec n fs d st = Some (s, st') -> keepsEntries st st') ->
  forall acc st l st',
    collectFieldSelections tm rec typeName depth fields acc st = Some (l, st') ->
    keepsEntries st st'.
Proof.
  intros Hrec. induction fields as [|[fname field] rest IH]; intros acc st l st';
    cbn [collectFieldSelections].
  - intros [= _ <-]. apply keepsEntries_refl.
  - destruct (fieldSelectionEntry tm rec typeName depth fname field st)
      as [[e st1]|] eqn:Ee; [|discriminate].
    intros Hrest%IH. apply (keepsEntries_trans _ st1); [|exact Hrest].
    unfold fieldSelectionEntry in Ee.
    destruct (classify tm _) as [cn cfs| |];
      [|injection Ee as _ <-; apply keepsEntries_refl..].
    destruct (String.eqb cn typeName).
    + pose proof (getMinimalFieldSelection_keepsEntries cn cfs st) as Hk.
      destruct (getMinimalFieldSelection cn cfs st) as [m st2]. cbn in Hk.
      destruct (truthy m); by injection Ee as _ <-.
    + destruct (rec cn cfs (depth + 1) st) as [[s st2]|] eqn:Er; [|discriminate].
      apply Hrec in Er. destruct (truthy s); by injection Ee as _ <-.
Qed.

(** A call to the generator only ever writes under names that were
    absent from the full cache when it started. *)
Lemma generateFullFieldSelection_keepsEntries fuel :
  forall n fs depth st s st',
    generateFullFieldSelection tm fuel n fs depth st = Some (s, st') ->
    keepsEntries st st'.
Proof.
  induction fuel as [|fuel IH]; intros n fs depth st s st';
    cbn [generateFullFieldSelection];
    (destruct (typeFieldSelectionCache st !! n) eqn:En;
     [intros [= _ <-]; apply keepsEntries_refl|]).
  - destruct (Nat.ltb 3 depth); [|discriminate].
    pose proof (getMinimalFieldSelection_keepsEntries n fs st) as Hk.
    destruct (getMinimalFieldSelection n fs st) as [m st1]. cbn in Hk.
    intros [= _ <-]. by apply setFull_keepsEntries.
  - destruct (Nat.ltb 3 depth).
    + pose proof (getMinimalFieldSelection_keepsEntries n fs st) as Hk.
      destruct (getMinimalFieldSelection n fs st) as [m st1]. cbn in Hk.
      intros [= _ <-]. by apply setFull_keepsEntries.
    + destruct (collectFieldSelections _ _ _ _ _ _ _) as [[l st1]|] eqn:Ec;
        [|discriminate].
      apply (collectFieldSelections_keepsEntries _ _ _ _ IH) in Ec.
      intros [= _ <-]. by apply setFull_keepsEntries.
Qed.

End Synthesizer.

(** ** Balanced braces *)

Lemma wellNamed_lookup tm n d :
  wellNamed tm = true -> assoc n tm = Some d ->
  wellNamedFields (typeFields d) = true.
Proof.
  unfold wellNamed. induction tm as [|[k v] tm IH]; [discriminate|].
  cbn [forallb assoc]. intros [Hv Htm]%andb_prop.
  destruct (String.eqb n k); [intros [= <-]; exact Hv | by apply IH].
Qed.

Lemma classify_composite tm t cn cfs :
  classify tm t = CkComposite cn cfs ->
  t = Named cn /\
  (assoc cn tm = Some (ObjectType cfs) \/ assoc cn tm = Some (InterfaceType cfs)).
Proof.
  unfold classify. destruct t as [| |n]; cbn; try discriminate.
  destruct (assoc n tm) as [[]|] eqn:E; cbn; try discriminate;
    intros [= <- <-]; auto.
Qed.

Lemma classify_wellNamed tm t cn cfs :
  wellNamed tm = true -> classify tm t = CkComposite cn cfs ->
  wellNamedFields cfs = true.
Proof.
  intros Hwn [_ [H|H]]%classify_composite;
    apply (wellNamed_lookup _ _ _ Hwn) in H; exact H.
Qed.

Lemma balanced_entry fname sub :
  braceFree fname = true -> balanced sub -> balanced (fname +:+ " " +:+ sub).
Proof.
  intros Hf Hs. apply balanced_app; [by apply braceFree_balanced|].
  apply balanced_app; [reflexivity | exact Hs].
Qed.

Section Balance.

Variable tm : TypeMap.
Hypothesis tm_wellNamed : wellNamed tm = true.

Lemma fieldSelectionEntry_balanced rec typeName depth fname field st e st' :
  keepsBalance rec -> braceFree fname = true -> cachesBalanced st ->
  fieldSelectionEntry tm rec typeName depth fname field st = Some (e, st') ->
  Forall balanced (option_list e) /\ cachesBalanced st'.
Proof.
  intros Hrec Hf Hst. unfold fieldSelectionEntry.
  destruct (classify tm _) as [cn cfs| |] eqn:Hc.
  - destruct (String.eqb cn typeName).
    + pose proof (getMinimalFieldSelection_balanced cn cfs st Hst) as [Hb Hst1].
      destruct (getMinimalFieldSelection cn cfs st) as [m st1]. cbn in Hb, Hst1.
      destruct (truthy m); intros [= <- <-]; (split; [|exact Hst1]).
      * constructor; [by apply balanced_entry | constructor].
      * constructor.
    + destruct (rec cn cfs (depth + 1) st) as [[s st1]|] eqn:Er; [|discriminate].
      apply Hrec in Er as [Hs Hst1];
        [|by eapply classify_wellNamed|exact Hst].
      destruct (truthy s); intros [= <- <-]; (split; [|exact Hst1]);
        (constructor; [|constructor]).
      * by apply balanced_entry.
      * by apply braceFree_balanced.
  - intros [= <- <-]. split; [|exact Hst].
    constructor; [|constructor].
    apply balanced_app; [by apply braceFree_balanced | reflexivity].
  - intros [= <- <-]. split; [|exact Hst].
    constructor; [by apply braceFree_balanced | constructor].
Qed.

Lemma collectFieldSelections_balanced rec typeName depth fields :
  keepsBalance rec -> wellNamedFields fields = true ->
  forall acc st l st',
    Forall balanced acc -> cachesBalanced st ->
    collectFieldSelections tm rec typeName depth fields acc st = Some (l, st') ->
    Forall balanced l /\ cachesBalanced st'.
Proof.
  intros Hrec. induction fields as [|[fname field] rest IH];
    intros Hwn acc st l st' Hacc Hst.
  - cbn. intros [= <- <-]. by split.
  - cbn [collectFieldSelections].
    cbn in Hwn. apply andb_prop in Hwn as [Hf Hrest].
    destruct (fieldSelectionEntry tm rec typeName depth fname field st)
      as [[e st1]|] eqn:Ee; [|discriminate].
    eapply fieldSelectionEntry_balanced in Ee as [He Hst1]; eauto.
    apply IH; auto. apply Forall_app. by split.
Qed.

Lemma setFull_balanced n s st :
  balanced s -> cachesBalanced st -> cachesBalanced (setFull n s st).
Proof.
  intros Hs [Hf Hm]. split; [|exact Hm].
  intros k v. cbn. rewrite lookup_insert. case_decide.
  - intros [= <-]. exact Hs.
  - apply Hf.
Qed.

Lemma generateFullFieldSelection_balanced fuel :
  keepsBalance (generateFullFieldSelection tm fuel).
Proof.
  induction fuel as [|fuel IH]; intros n fs depth st s st' Hwn Hst;
    cbn [generateFullFieldSelection];
    (destruct (typeFieldSelectionCache st !! n) eqn:E;
     [intros [= <- <-]; split; [by eapply (proj1 Hst) | exact Hst] |]).
  - destruct (Nat.ltb 3 depth); [|discriminate].
    pose proof (getMinimalFieldSelection_balanced n fs st Hst) as [Hb Hst1].
    destruct (getMinimalFieldSelection n fs st) as [m st1].
    intros [= <- <-]. split; [exact Hb|]. by apply setFull_balanced.
  - destruct (Nat.ltb 3 depth).
    + pose proof (getMinimalFieldSelection_balanced n fs st Hst) as [Hb Hst1].
      destruct (getMinimalFieldSelection n fs st) as [m st1].
      intros [= <- <-]. split; [exact Hb|]. by apply setFull_balanced.
    + destruct (collectFieldSelections _ _ _ _ _ _ _) as [[l st1]|] eqn:Ec;
        [|discriminate].
      eapply collectFieldSelections_balanced in Ec as [Hl Hst1]; eauto.
      intros [= <- <-].
      pose proof (formatSelection_balanced depth l Hl).
      split; [done|]. by apply setFull_balanced.
Qed.

Lemma generateFieldSelection_balanced fuel t visited depth st s v st' :
  cachesBalanced st ->
  generateFieldSelection tm fuel t visited depth st = Some (s, v, st') ->
  balanced s /\ cachesBalanced st'.
Proof.
  intros Hst. unfold generateFieldSelection.
  destruct (stripWrappers t) as [| |n];
    try (intros [= <- <- <-]; by split).
  destruct (assoc n tm) as [d|] eqn:En;
    [|intros [= <- <- <-]; by split].
  pose proof (wellNamed_lookup _ _ _ tm_wellNamed En) as Hwn.
  assert (Hcomposite : forall fs, wellNamedFields fs = true ->
    (if decide (n ∈ visited)
     then let '(minimal, st1) := getMinimalFieldSelection n fs st in
          Some (minimal, visited, st1)
     else match typeFieldSelectionCache st !! n with
          | Some s0 => Some (s0, visited, st)
          | None =>
              match generateFullFieldSelection tm fuel n fs depth st with
              | Some (selection, st1) =>
                  Some (selection, ({[n]} ∪ visited) ∖ {[n]}, st1)
              | None => None
              end
          end) = Some (s, v, st') ->
    balanced s /\ cachesBalanced st').
  { intros fs Hfs. case_decide.
    - pose proof (getMinimalFieldSelection_balanced n fs st Hst) as [Hb Hst1].
      destruct (getMinimalFieldSelection n fs st) as [m st1].
      intros [= <- <- <-]. by split.
    - destruct (typeFieldSelectionCache st !! n) eqn:E.
      + intros [= <- <- <-]. split; [by eapply (proj1 Hst) | exact Hst].
      + destruct (generateFullFieldSelection tm fuel n fs depth st)
          as [[sel st1]|] eqn:Eg; [|discriminate].
        intros [= <- <- <-].
        eapply generateFullFieldSelection_balanced; eauto. }
  destruct d; cbn in Hwn; try (intros [= <- <- <-]; by split); eauto.
Qed.

End Balance.

(** ** Termination of the tool builder *)

Lemma assoc_typeNames (tm : TypeMap) n d :
  assoc n tm = Some d -> n ∈ typeNames tm.
Proof.
  unfold typeNames. induction tm as [|[k v] l IH]; [discriminate|].
  cbn [assoc map fst list_to_set].
  destruct (String.eqb_spec n k) as [->|Hne]; set_solver.
Qed.

Lemma typeNames_size (tm : TypeMap) : size (typeNames tm) <= List.length tm.
Proof.
  unfold typeNames. induction tm as [|[k v] l IH]; cbn.
  - by rewrite size_empty.
  - rewrite size_union_alt, size_singleton.
    assert (size (list_to_set (map fst l) ∖ ({[k]} : gset string))
            <= size (list_to_set (map fst l) : gset string))
      by (apply subseteq_size; set_solver).
    lia.
Qed.


Section Totality.

Variable tm : TypeMap.

Lemma generateFieldSelection_total fuel t visited depth st :
  4 <= fuel + depth ->
  is_Some (generateFieldSelection tm fuel t visited depth st).
Proof.
  intros Hd. unfold generateFieldSelection.
  assert (Hcomposite : forall n fs, is_Some
    (if decide (n ∈ visited)
     then let '(minimal, st1) := getMinimalFieldSelection n fs st in
          Some (minimal, visited, st1)
     else match typeFieldSelectionCache st !! n with
          | Some s0 => Some (s0, visited, st)
          | None =>
              match generateFullFieldSelection tm fuel n fs depth st with
              | Some (selection, st1) =>
                  Some (selection, ({[n]} ∪ visited) ∖ {[n]}, st1)
              | None => None
              end
          end)).
  { intros n fs. case_decide.
    - destruct (getMinimalFieldSelection n fs st). eauto.
    - destruct (typeFieldSelectionCache st !! n); [eauto|].
      destruct (generateFullFieldSelection_total tm fuel n fs depth st Hd)
        as [[s st1] ->]. eauto. }
  destruct (stripWrappers t) as [| |n]; [eauto..|].
  destruct (assoc n tm) as [[]|]; eauto.
Qed.

(** The set the caller passed is handed back as it was. *)
Lemma generateFieldSelection_visited fuel t visited depth st s v st' :
  generateFieldSelection tm fuel t visited depth st = Some (s, v, st') ->
  v = visited.
Proof.
  unfold generateFieldSelection.
  assert (Hcomposite : forall n fs,
    (if decide (n ∈ visited)
     then let '(minimal, st1) := getMinimalFieldSelection n fs st in
          Some (minimal, visited, st1)
     else match typeFieldSelectionCache st !! n with
          | Some s0 => Some (s0, visited, st)
          | None =>
              match generateFullFieldSelection tm fuel n fs depth st with
              | Some (selection, st1) =>
                  Some (selection, ({[n]} ∪ visited) ∖ {[n]}, st1)
              | None => None
              end
          end) = Some (s, v, st') -> v = visited).
  { intros n fs. case_decide.
    - destruct (getMinimalFieldSelection n fs st). by intros [= _ <- _].
    - destruct (typeFieldSelectionCache st !! n); [by intros [= _ <- _]|].
      destruct (generateFullFieldSelection tm fuel n fs depth st)
        as [[sel st1]|]; [|discriminate].
      intros [= _ <- _]. apply leibniz_equiv. set_solver. }
  destruct (stripWrappers t) as [| |n]; try by intros [= _ <- _].
  destruct (assoc n tm) as [[]|]; eauto; by intros [= _ <- _].
Qed.

Lemma wrapperSchema_total named t :
  (forall n, is_Some (named n)) -> is_Some (wrapperSchema named t).
Proof.
  intros Hn. induction t as [t IH|t IH|n]; cbn; [exact IH| |apply Hn].
  destruct IH as [s ->]. eauto.
Qed.

Lemma collectInputFields_total rec ifields :
  (forall t, is_Some (rec t)) ->
  forall properties required,
    is_Some (collectInputFields rec ifields properties required).
Proof.
  intros Hrec. induction ifields as [|[fname field] rest IH];
    intros properties required; cbn; [eauto|].
  destruct (Hrec (ifield_type field)) as [s ->]. apply IH.
Qed.

(** Each expansion of an input object adds a bound, unvisited name to
    [visited]; the fuel only has to exceed the number of such names. *)
Lemma getJSONSchemaType_total fuel :
  forall t visited,
    size (typeNames tm ∖ visited) < fuel ->
    is_Some (getJSONSchemaType tm fuel t visited).
Proof.
  induction fuel as [|fuel IH]; intros t visited Hsize; [lia|].
  cbn [getJSONSchemaType]. apply wrapperSchema_total. intros n.
  unfold namedSchema. destruct (assoc n tm) as [d|] eqn:En; [|eauto].
  destruct d; eauto.
  case_decide as Hv; [eauto|].
  destruct (collectInputFields_total
              (fun t0 => getJSONSchemaType tm fuel t0 ({[n]} ∪ visited)) ifields)
    with (properties := @nil (string * JSONSchema)) (required := @nil string)
    as [[p r] ->]; [|eauto].
  intros t0. apply IH.
  assert (typeNames tm ∖ ({[n]} ∪ visited) ⊂ typeNames tm ∖ visited) as Hsub.
  { apply assoc_typeNames in En. set_solver. }
  apply subset_size in Hsub. lia.
Qed.

Lemma getJSONSchemaType_top t :
  is_Some (getJSONSchemaType tm (schemaFuel tm) t ∅).
Proof.
  apply getJSONSchemaType_total. unfold schemaFuel.
  pose proof (typeNames_size tm).
  assert (size (typeNames tm ∖ (∅ : gset string)) <= size (typeNames tm))
    by (apply subseteq_size; set_solver).
  lia.
Qed.

Lemma collectArguments_total fargs :
  forall properties required,
    is_Some (collectArguments tm fargs properties required).
Proof.
  induction fargs as [|arg rest IH]; intros properties required; cbn [collectArguments];
    [eauto|].
  destruct (getJSONSchemaType_top (arg_type arg)) as [s ->]. apply IH.
Qed.

Lemma generateToolForField_total fname field op st :
  is_Some (generateToolForField tm fname field op st).
Proof.
  unfold generateToolForField.
  destruct (collectArguments_total (field_args field) [] []) as [[p r] ->].
  destruct (generateFieldSelection_total selectionFuel (field_type field) ∅ 0 st)
    as [[[s v] st1] ->]; [unfold selectionFuel; lia|]. eauto.
Qed.

Lemma prewarm_total types :
  forall st, is_Some (prewarm tm types st).
Proof.
  induction types as [|[n d] rest IH]; intros st; [cbn; eauto|].
  destruct d; cbn [prewarm]; try apply IH;
    (destruct (String.prefix "__" n); [apply IH|]);
    (destruct (generateFullFieldSelection_total tm selectionFuel n fields 0 st)
       as [[s st1] ->]; [unfold selectionFuel; lia | apply IH]).
Qed.

Lemma toolsForFields_total op fields :
  forall tools st, is_Some (toolsForFields tm op fields tools st).
Proof.
  induction fields as [|[fname field] rest IH]; intros tools st; cbn [toolsForFields];
    [eauto|].
  destruct (generateToolForField_total fname field op st) as [[tool st1] ->].
  apply IH.
Qed.

End Totality.

(** The registry build returns for every schema and every prior cache state. *)
Lemma generateMCPToolsFromSchema_total schema st :
  is_Some (generateMCPToolsFromSchema schema st).
Proof.
  unfold generateMCPToolsFromSchema.
  destruct (prewarm_total (typeMap schema) (typeMap schema)
              (clearFieldSelectionCaches st)) as [st1 ->].
  destruct (toolsForFields_total (typeMap schema) Query
              (rootFields (typeMap schema) (queryType schema)) [] st1)
    as [[tools st2] ->].
  apply toolsForFields_total.
Qed.

(** ** The registry build keeps every selection balanced *)

Section BuildBalance.

Variable tm : TypeMap.
Hypothesis tm_wellNamed : wellNamed tm = true.

Lemma prewarm_balanced types :
  forallb (fun p => wellNamedFields (typeFields (snd p))) types = true ->
  forall st st',
    cachesBalanced st -> prewarm tm types st = Some st' -> cachesBalanced st'.
Proof.
  induction types as [|[n d] rest IH]; intros Hwn st st' Hst;
    [cbn; by intros [= <-]|].
  cbn in Hwn. apply andb_prop in Hwn as [Hd Hrest].
  destruct d; cbn [prewarm]; try (by apply IH);
    (destruct (String.prefix "__" n); [by apply IH|]);
    (destruct (generateFullFieldSelection tm selectionFuel n fields 0 st)
       as [[s st1]|] eqn:Eg; [|discriminate]);
    apply (generateFullFieldSelection_balanced tm tm_wellNamed) in Eg as [_ Hst1];
    auto; by apply IH.
Qed.

Lemma toolsForFields_balanced op fields :
  forall tools st tools' st',
    selectionsBalanced tools -> cachesBalanced st ->
    toolsForFields tm op fields tools st = Some (tools', st') ->
    selectionsBalanced tools' /\ cachesBalanced st'.
Proof.
  induction fields as [|[fname field] rest IH]; intros tools st tools' st' Ht Hst;
    cbn [toolsForFields]; [intros [= <- <-]; by split|].
  destruct (generateToolForField tm fname field op st) as [[tool st1]|] eqn:Et;
    [|discriminate].
  unfold generateToolForField in Et.
  destruct (collectArguments tm (field_args field) [] []) as [[p r]|];
    [|discriminate].
  destruct (generateFieldSelection tm selectionFuel (field_type field) ∅ 0 st)
    as [[[s v] st2]|] eqn:Es; [|discriminate].
  injection Et as <- <-.
  apply (generateFieldSelection_balanced tm tm_wellNamed) in Es as [Hs Hst2];
    [|exact Hst].
  apply IH; [|exact Hst2].
  apply Forall_app. split; [exact Ht|].
  constructor; [|constructor]. cbn. by intros info [= <-].
Qed.

End BuildBalance.

Lemma emptyCaches_balanced : cachesBalanced emptyCaches.
Proof. split; intros k s; cbn; by rewrite lookup_empty. Qed.

Lemma generateMCPToolsFromSchema_balanced schema st0 tools st :
  wellNamed (typeMap schema) = true ->
  generateMCPToolsFromSchema schema st0 = Some (tools, st) ->
  selectionsBalanced tools /\ cachesBalanced st.
Proof.
  intros Hwn. unfold generateMCPToolsFromSchema.
  destruct (prewarm _ _ _) as [st1|] eqn:Ep; [|discriminate].
  apply (prewarm_balanced _ Hwn) in Ep; [|exact Hwn|exact emptyCaches_balanced].
  destruct (toolsForFields _ Query _ _ _) as [[tools1 st2]|] eqn:Eq; [|discriminate].
  apply (toolsForFields_balanced _ Hwn) in Eq as [Ht1 Hst2];
    [|constructor|exact Ep].
  intros Em. by apply (toolsForFields_balanced _ Hwn) in Em.
Qed.

(** C5: selection generation terminates within a bounded nesting of
    recursive calls for every type graph: from depth 0 four units of fuel
    always yield a result; beyond depth 3 an uncached type gets its minimal
    selection without any further call; and the whole registry build
    returns, with equal numbers of opening and closing braces in every
    cached selection and in every tool's field selection. *)
Theorem selection_generation_terminates_balanced
    (schema : GraphQLSchema) (st0 : Caches) :
  wellNamed (typeMap schema) = true ->
  (forall n fs st,
     is_Some (generateFullFieldSelection (typeMap schema) selectionFuel n fs 0 st)) /\
  (forall fuel n fs depth st,
     3 < depth -> typeFieldSelectionCache st !! n = None ->
     generateFullFieldSelection (typeMap schema) fuel n fs depth st
     = Some (fst (getMinimalFieldSelection n fs st),
             setFull n (fst (getMinimalFieldSelection n fs st))
               (snd (getMinimalFieldSelection n fs st)))) /\
  exists tools st,
    generateMCPToolsFromSchema schema st0 = Some (tools, st) /\
    (forall k s, typeFieldSelectionCache st !! k = Some s -> opens s = closes s) /\
    (forall tool info,
       tool ∈ tools -> _graphql tool = Some info ->
       opens (fieldSelection info) = closes (fieldSelection info)).
Proof.
  intros Hwn. split; [|split].
  - intros n fs st. apply generateFullFieldSelection_total.
    unfold selectionFuel. lia.
  - intros fuel n fs depth st. apply generateFullFieldSelection_ceiling.
  - destruct (generateMCPToolsFromSchema_total schema st0) as [[tools st] Hb].
    exists tools, st. split; [exact Hb|].
    apply generateMCPToolsFromSchema_balanced in Hb as [Ht [Hf _]]; [|exact Hwn].
    split; [exact Hf|].
    intros tool info Hin Hinfo.
    unfold selectionsBalanced in Ht. rewrite Forall_forall in Ht.
    by apply (Ht tool Hin).
Qed.

Lemma selection_generation_terminates_balanced_witness :
  wellNamed (typeMap forumSchema) = true /\
  exists tools st,
    generateMCPToolsFromSchema forumSchema emptyCaches = Some (tools, st) /\
    (forall k s, typeFieldSelectionCache st !! k = Some s -> opens s = closes s) /\
    (forall tool info,
       tool ∈ tools -> _graphql tool = Some info ->
       opens (fieldSelection info) = closes (fieldSelection info)).
Proof.
  split; [reflexivity|].
  apply (selection_generation_terminates_balanced forumSchema emptyCaches).
  reflexivity.
Defined.

(** ** Determinism of the registry build *)

(** C7: the build is a function of the schema alone.  It starts by
    clearing both caches, so whatever they held before (in particular the
    result of an earlier build), it returns the same tools, with the same
    field selections, and leaves the same selection under every type name. *)
Theorem build_deterministic (schema : GraphQLSchema) (st0 : Caches) :
  exists tools st,
    generateMCPToolsFromSchema schema st0 = Some (tools, st) /\
    (forall st1, generateMCPToolsFromSchema schema st1 = Some (tools, st)) /\
    (forall st1 tools' st',
       generateMCPToolsFromSchema schema st1 = Some (tools', st') ->
       map (fun t => fieldSelection <$> _graphql t) tools'
       = map (fun t => fieldSelection <$> _graphql t) tools /\
       forall T, typeFieldSelectionCache st' !! T = typeFieldSelectionCache st !! T).
Proof.
  destruct (generateMCPToolsFromSchema_total schema st0) as [[tools st] Hb].
  exists tools, st.
  assert (Hany : forall st1, generateMCPToolsFromSchema schema st1 = Some (tools, st)).
  { intros st1. rewrite <- Hb. reflexivity. }
  split; [exact Hb|]. split; [exact Hany|].
  intros st1 tools' st'. rewrite Hany. by intros [= <- <-].
Qed.

(** ** Tool names *)

Lemma string_app_inj p a b : p +:+ a = p +:+ b -> a = b.
Proof.
  induction p as [|c p IH]; [exact id|].
  change (String c p +:+ a) with (String c (p +:+ a)).
  change (String c p +:+ b) with (String c (p +:+ b)).
  intros [= H]. by apply IH.
Qed.

Lemma toolNameFor_inj op a b : toolNameFor op a = toolNameFor op b -> a = b.
Proof.
  unfold toolNameFor. intros H%string_app_inj. by apply string_app_inj in H.
Qed.

#[global] Instance toolNameFor_Inj op : Inj (=) (=) (toolNameFor op).
Proof. intros a b. apply toolNameFor_inj. Qed.

Lemma toolNameFor_kind a b : toolNameFor Query a <> toolNameFor Mutation b.
Proof. unfold toolNameFor. cbv. discriminate. Qed.

Lemma generateToolForField_name tm fname field op st tool st' :
  generateToolForField tm fname field op st = Some (tool, st') ->
  name tool = toolNameFor op fname /\
  exists info, _graphql tool = Some info /\
    fieldName info = fname /\ operationType info = op.
Proof.
  unfold generateToolForField.
  destruct (collectArguments tm (field_args field) [] []) as [[p r]|];
    [|discriminate].
  destruct (generateFieldSelection _ _ _ _ _ _) as [[[s v] st1]|]; [|discriminate].
  intros [= <- <-]. cbn. eauto.
Qed.

Lemma toolsForFields_names tm op fields :
  forall tools st tools' st',
    toolsForFields tm op fields tools st = Some (tools', st') ->
    map name tools' = map name tools ++ map (fun f => toolNameFor op (fst f)) fields /\
    (Forall wellNamedTool tools -> Forall wellNamedTool tools').
Proof.
  induction fields as [|[fname field] rest IH]; intros tools st tools' st';
    cbn [toolsForFields].
  - intros [= <- <-]. cbn. by rewrite app_nil_r.
  - destruct (generateToolForField tm fname field op st) as [[tool st1]|] eqn:Et;
      [|discriminate].
    apply generateToolForField_name in Et as (Hn & info & Hi & Hf & Ho).
    intros [Hnames Hwf]%IH. split.
    + rewrite Hnames, map_app. cbn. rewrite Hn, <- app_assoc. reflexivity.
    + intros Ht. apply Hwf, Forall_app. split; [exact Ht|].
      constructor; [|constructor]. exists info. by rewrite Hf, Ho.
Qed.

(** C8: every tool of a build is named [<kind>_<fieldName>], with kind
    [query] for the fields of the root Query type and [mutation] for those
    of the root Mutation type, and no two tools share a name.  The field
    names of a root type are the keys of an object, hence distinct. *)
Theorem tool_names_unique (schema : GraphQLSchema) (st0 : Caches) :
  NoDup (map fst (rootFields (typeMap schema) (queryType schema))) ->
  NoDup (map fst (rootFields (typeMap schema) (mutationType schema))) ->
  exists tools st,
    generateMCPToolsFromSchema schema st0 = Some (tools, st) /\
    map name tools
    = map (fun f => "query_" +:+ fst f)
        (rootFields (typeMap schema) (queryType schema))
      ++ map (fun f => "mutation_" +:+ fst f)
           (rootFields (typeMap schema) (mutationType schema)) /\
    Forall wellNamedTool tools /\
    NoDup (map name tools).
Proof.
  intros Hq Hm.
  destruct (generateMCPToolsFromSchema_total schema st0) as [[tools st] Hb].
  exists tools, st. split; [exact Hb|].
  unfold generateMCPToolsFromSchema in Hb.
  destruct (prewarm _ _ _) as [st1|]; [|discriminate].
  destruct (toolsForFields _ Query _ _ _) as [[tools1 st2]|] eqn:Eq; [|discriminate].
  apply toolsForFields_names in Eq as [Hn1 Hw1].
  apply toolsForFields_names in Hb as [Hn Hw].
  rewrite Hn1 in Hn. cbn [map app] in Hn.
  assert (Hnames : map name tools
    = map (fun f => toolNameFor Query (fst f))
        (rootFields (typeMap schema) (queryType schema))
      ++ map (fun f => toolNameFor Mutation (fst f))
           (rootFields (typeMap schema) (mutationType schema))) by exact Hn.
  split; [exact Hnames|]. split; [apply Hw, Hw1; constructor|].
  rewrite Hnames. apply NoDup_app. split; [|split].
  - rewrite <- (map_map fst (toolNameFor Query)).
    by apply (NoDup_fmap_2 (toolNameFor Query)).
  - intros x [[a fa] [-> _]]%list_elem_of_fmap [[b fb] [Hx _]]%list_elem_of_fmap.
    by apply toolNameFor_kind in Hx.
  - rewrite <- (map_map fst (toolNameFor Mutation)).
    by apply (NoDup_fmap_2 (toolNameFor Mutation)).
Qed.

Lemma tool_names_unique_witness :
  NoDup (map fst (rootFields (typeMap forumSchema) (queryType forumSchema))) /\
  NoDup (map fst (rootFields (typeMap forumSchema) (mutationType forumSchema))) /\
  exists tools st,
    generateMCPToolsFromSchema forumSchema emptyCaches = Some (tools, st) /\
    map name tools
    = map (fun f => "query_" +:+ fst f)
        (rootFields (typeMap forumSchema) (queryType forumSchema))
      ++ map (fun f => "mutation_" +:+ fst f)
           (rootFields (typeMap forumSchema) (mutationType forumSchema)) /\
    Forall wellNamedTool tools /\
    NoDup (map name tools).
Proof.
  assert (Hq : NoDup (map fst (rootFields (typeMap forumSchema) (queryType forumSchema)))).
  { vm_compute. repeat constructor; set_solver. }
  assert (Hm : NoDup (map fst (rootFields (typeMap forumSchema) (mutationType forumSchema)))).
  { vm_compute. repeat constructor; set_solver. }
  split; [exact Hq|]. split; [exact Hm|].
  exact (tool_names_unique forumSchema emptyCaches Hq Hm).
Defined.

(** ** Doubly wrapped lists *)


(** ** Required-parameter validation *)

Lemma isMissing_spec cargs param :
  isMissing cargs param = true <-> ~ supplied cargs param.
Proof.
  unfold isMissing, supplied, hasOwnProperty, getProperty, hasKey.
  destruct cargs as [| |own inherited].
  - split; [|done]. intros _ (? & ? & ? & [=] & _).
  - split; [|done]. intros _ (? & ? & ? & [=] & _).
  - destruct (assoc param own) as [v|] eqn:E; cbn.
    + split.
      * intros H (? & ? & v' & [= <- <-] & Hv & Hu & Hn).
        rewrite E in Hv. injection Hv as <-.
        destruct v; cbn in H; congruence.
      * intros H. destruct v; cbn; try reflexivity; exfalso; apply H;
          eauto 10.
    + split; [|done]. intros _ (? & ? & v' & [= <- <-] & Hv & _). congruence.
Qed.

Lemma validateRequiredParameters_spec tool cargs param :
  param ∈ validateRequiredParameters tool cargs <->
  param ∈ default [] (schema_required (inputSchema tool)) /\
  ~ supplied cargs param.
Proof.
  unfold validateRequiredParameters.
  rewrite !list_elem_of_In, filter_In, isMissing_spec. reflexivity.
Qed.

(** C6: when a tool is called, the names reported missing are exactly the
    required names that the argument map does not hold as an own property
    with a value other than [null] and [undefined], in the order of the
    required list; if there is any, the handler returns an error result
    (it does not throw) whose text lists all of them; and a name that the
    argument object only inherits counts as missing. *)
Theorem missing_parameters_reported
    (request : string -> CallArgs -> Response) (tools : list MCPTool)
    (toolName : string) (tool : MCPTool) (graphqlInfo : GraphQLInfo)
    (cargs : CallArgs) :
  List.find (fun t => String.eqb (name t) toolName) tools = Some tool ->
  _graphql tool = Some graphqlInfo ->
  let requiredParams := default [] (schema_required (inputSchema tool)) in
  let missingParams := validateRequiredParameters tool cargs in
  missingParams = List.filter (isMissing cargs) requiredParams /\
  (forall param,
     param ∈ missingParams <-> param ∈ requiredParams /\ ~ supplied cargs param) /\
  (forall own inherited param,
     cargs = ArgsObject own inherited -> param ∈ requiredParams ->
     assoc param own = None -> param ∈ missingParams) /\
  (missingParams <> [] ->
   callTool request tools toolName cargs
   = {| content_text :=
          "Error executing " +:+ toolName +:+ ": Missing required parameters: "
          +:+ join ", " missingParams;
        isError := true |}).
Proof.
  intros Hfind Hinfo requiredParams missingParams.
  split; [reflexivity|]. split; [apply validateRequiredParameters_spec|]. split.
  - intros own inherited param -> Hreq Hown.
    apply validateRequiredParameters_spec. split; [exact Hreq|].
    intros (? & ? & v & [= <- <-] & Hv & _). congruence.
  - intros Hne. unfold callTool, tryCallTool. rewrite Hfind, Hinfo.
    fold missingParams. destruct missingParams; [done|]. reflexivity.
Qed.

(** C10: validation rejects nothing but absent, [null] and [undefined]
    values.  When every required name is an own property with any other
    value (the empty string, [false], [0] and [NaN] included), nothing is
    reported missing and the outcome of the call is that of the upstream
    request for the built operation. *)
Theorem present_values_pass_validation
    (request : string -> CallArgs -> Response) (tools : list MCPTool)
    (toolName : string) (tool : MCPTool) (graphqlInfo : GraphQLInfo)
    (own inherited : list (string * JSValue)) :
  List.find (fun t => String.eqb (name t) toolName) tools = Some tool ->
  _graphql tool = Some graphqlInfo ->
  (forall param,
     param ∈ default [] (schema_required (inputSchema tool)) ->
     exists v, assoc param own = Some v /\ v <> JUndefined /\ v <> JNull) ->
  validateRequiredParameters tool (ArgsObject own inherited) = [] /\
  tryCallTool request tools toolName (ArgsObject own inherited)
  = match request (buildGraphQLOperation graphqlInfo) (ArgsObject own inherited) with
    | Resolved text => Returned text
    | RejectedError message => ThrownError message
    | RejectedOther => ThrownOther
    end.
Proof.
  intros Hfind Hinfo Hall.
  assert (Hnone : validateRequiredParameters tool (ArgsObject own inherited) = []).
  { destruct (validateRequiredParameters tool (ArgsObject own inherited))
      as [|p l] eqn:E; [reflexivity|].
    assert (Hp : p ∈ validateRequiredParameters tool (ArgsObject own inherited))
      by (rewrite E; left).
    apply validateRequiredParameters_spec in Hp as [Hreq Hmiss].
    destruct (Hall p Hreq) as (v & Hv & Hu & Hn).
    exfalso. apply Hmiss. by exists own, inherited, v. }
  split; [exact Hnone|].
  unfold tryCallTool. by rewrite Hfind, Hinfo, Hnone.
Qed.

Lemma missing_parameters_reported_witness :
  List.find (fun t => String.eqb (name t) "mutation_createPost") [probeTool; createPostTool]
  = Some createPostTool /\
  _graphql createPostTool = Some createPostInfo /\
  validateRequiredParameters createPostTool
    (ArgsObject [("title", JNull)] [("authorId", JString "7")])
  = ["title"; "authorId"] /\
  callTool echoRequest [probeTool; createPostTool] "mutation_createPost"
    (ArgsObject [("title", JNull)] [("authorId", JString "7")])
  = {| content_text :=
         "Error executing mutation_createPost: Missing required parameters: title, authorId";
       isError := true |}.
Proof.
  split; [reflexivity|]. split; [reflexivity|]. split; [reflexivity|].
  apply (missing_parameters_reported echoRequest [probeTool; createPostTool]
           "mutation_createPost" createPostTool createPostInfo
           (ArgsObject [("title", JNull)] [("authorId", JString "7")])
           eq_refl eq_refl).
  vm_compute. discriminate.
Defined.

Lemma present_values_pass_validation_witness :
  List.find (fun t => String.eqb (name t) "query_probe") [probeTool; createPostTool]
  = Some probeTool /\
  _graphql probeTool = Some probeInfo /\
  validateRequiredParameters probeTool (ArgsObject probeArgs []) = [] /\
  tryCallTool echoRequest [probeTool; createPostTool] "query_probe"
    (ArgsObject probeArgs [])
  = Returned "{}".
Proof.
  split; [reflexivity|]. split; [reflexivity|].
  apply (present_values_pass_validation echoRequest [probeTool; createPostTool]
           "query_probe" probeTool probeInfo probeArgs [] eq_refl eq_refl).
  intros param Hin. cbn in Hin.
  repeat (apply elem_of_cons in Hin as [->|Hin];
          [eexists; split; [reflexivity|split; discriminate]|]).
  by apply elem_of_nil in Hin.
Defined.

(** ** Composite fields in a generated selection *)

(** C2 on the code: in a schema whose types all have fields, the field
    [e] of object type [E] is emitted as a bare name.  The build reaches
    [E] at depth 4, where the generator stores the minimal selection as
    the full one; [E] has neither [id] nor [documentId], so that text is
    empty, and the loop over the fields of [D] falls back to the bare
    name.  The bare field is in the full cache and in the selection
    attached to the tool [query_b].  In a cycle of two types without [id]
    the same happens, and the bare field [t] stays inside the selection
    finally cached for [T], which is not empty. *)
Theorem bare_composite_field_in_build :
  match generateMCPToolsFromSchema chainSchema emptyCaches with
  | Some (tools, st) =>
      classify (typeMap chainSchema) (stripWrappers (Named "E"))
      = CkComposite "E" [("name", mkField (Named "String"))] /\
      typeFieldSelectionCache st !! "E" = Some "" /\
      typeFieldSelectionCache st !! "D" = Some (formatSelection 3 ["id"; "e"]) /\
      map (fun t => (name t, fieldSelection <$> _graphql t)) tools
      = [("query_b",
          Some (formatSelection 1
                  ["id";
                   "c " +:+ formatSelection 2
                     ["id"; "d " +:+ formatSelection 3 ["id"; "e"]]]))]
  | None => False
  end /\
  match prewarm loopTypes loopTypes emptyCaches with
  | Some st =>
      classify loopTypes (stripWrappers (Named "T"))
      = CkComposite "T" [("x", mkField (Named "X"));
                         ("name", mkField (Named "String"))] /\
      typeFieldSelectionCache st !! "T"
      = Some (formatSelection 0
                ["x " +:+ formatSelection 1
                   ["t " +:+ formatSelection 2
                      ["x " +:+ formatSelection 3 ["t"; "name"]; "name"];
                    "name"];
                 "name"])
  | None => False
  end.
Proof. vm_compute. repeat split. Qed.

(** ** Mutual cycles *)

(** C1 on the code: in the schema with [User.posts: [Post]] and
    [Post.author: User] the generator never consults a visited set; it
    unrolls the cycle until the depth ceiling.  After the build the
    selection cached for [Post] attaches to [author] a selection of [User]
    that itself selects [posts], not the minimal selection.  With [Post]
    generated before [User], the selection attached to [author] is the
    very selection cached for [User]. *)
Theorem mutual_cycle_is_unrolled :
  match generateMCPToolsFromSchema forumSchema emptyCaches with
  | Some (_, st) =>
      let authorSelection := formatSelection 3 ["id"; "posts { id }"] in
      typeFieldSelectionCache st !! "Post"
      = Some (formatSelection 2 ["id"; "author " +:+ authorSelection]) /\
      authorSelection <> "{ id }" /\ authorSelection <> "{ documentId }"
  | None => False
  end /\
  match prewarm postFirstTypes postFirstTypes emptyCaches with
  | Some st =>
      let userSelection :=
        formatSelection 1
          ["id";
           "posts " +:+ formatSelection 2
             ["id"; "author " +:+ formatSelection 3 ["id"; "posts { id }"]]] in
      typeFieldSelectionCache st !! "User" = Some userSelection /\
      typeFieldSelectionCache st !! "Post"
      = Some (formatSelection 0 ["id"; "author " +:+ userSelection])
  | None => False
  end.
Proof. vm_compute. repeat split; discriminate. Qed.

(** ** Overwritten cache entries *)

(** C3 on the code: while [Post] is generated at depth 2 (the state the
    build reaches it in, both caches still empty), the nested call at
    depth 4 stores ["{ id }"] under [Post]; when the loop over the fields
    of [Post] is over, that entry is present, and the generator replaces
    it by the selection it has just built.  The replaced value is what
    the build leaves in the cache. *)
Theorem cache_entry_is_overwritten :
  let tm := typeMap forumSchema in
  match collectFieldSelections tm (generateFullFieldSelection tm 1)
          "Post" 2 postFields [] emptyCaches,
        generateFullFieldSelection tm 2 "Post" postFields 2 emptyCaches,
        generateMCPToolsFromSchema forumSchema emptyCaches with
  | Some (entries, st1), Some (selection, st2), Some (_, st) =>
      typeFieldSelectionCache st1 !! "Post" = Some "{ id }" /\
      selection = formatSelection 2 entries /\
      st2 = setFull "Post" selection st1 /\
      selection <> "{ id }" /\
      typeFieldSelectionCache st !! "Post" = Some selection
  | _, _, _ => False
  end.
Proof. vm_compute. repeat split; discriminate. Qed.

(** ** Required parameters *)

(** At the top level an argument is required exactly when its type is
    non-null and it declares no default value. *)
Lemma collectArguments_required tm fargs :
  forall properties required properties' required',
    collectArguments tm fargs properties required = Some (properties', required') ->
    required'
    = required ++ map arg_name
        (List.filter (fun arg => isNonNullType (arg_type arg)
                                 && isUndefined (arg_defaultValue arg)) fargs).
Proof.
  induction fargs as [|arg rest IH]; intros properties required properties' required';
    cbn [collectArguments List.filter map].
  - intros [= _ <-]. by rewrite app_nil_r.
  - destruct (getJSONSchemaType _ _ _ _) as [s|]; [|discriminate].
    intros ->%IH.
    destruct (isNonNullType (arg_type arg) && isUndefined (arg_defaultValue arg));
      cbn [map]; by rewrite <- ?app_assoc.
Qed.

(** Inside an input object only the type is looked at: every non-null
    field is required, whatever its default value. *)
Lemma collectInputFields_required rec ifields :
  forall properties required properties' required',
    collectInputFields rec ifields properties required = Some (properties', required') ->
    required'
    = required ++ map fst
        (List.filter (fun f => isNonNullType (ifield_type (snd f))) ifields).
Proof.
  induction ifields as [|[fname field] rest IH];
    intros properties required properties' required';
    cbn [collectInputFields List.filter map].
  - intros [= _ <-]. by rewrite app_nil_r.
  - destruct (rec (ifield_type field)) as [s|]; [|discriminate].
    intros ->%IH. cbn [snd].
    destruct (isNonNullType (ifield_type field)); cbn [map fst];
      by rewrite <- ?app_assoc.
Qed.

(** C4 on the code: for [createPost] the non-null argument [tags], which
    declares a default, is left out of the required list, but inside
    [PostOptions] the non-null field [draft], which declares the default
    [false], is listed as required. *)
Theorem nested_default_still_required :
  let tm := typeMap forumSchema in
  ifield_defaultValue
    (mkInputField (NonNull (Named "Boolean")) (JBool false)) = JBool false /\
  getJSONSchemaType tm (schemaFuel tm) (Named "PostOptions") ∅
  = Some (SchemaObject
            [("draft", SchemaLeaf "boolean" None None);
             ("slug", SchemaLeaf "string" None None);
             ("note", SchemaLeaf "string" None None)]
            (Some ["draft"; "slug"]) None) /\
  match generateMCPToolsFromSchema forumSchema emptyCaches with
  | Some (tools, _) =>
      map (fun t => (name t, schema_required (inputSchema t))) tools
      = [("query_user", Some ["id"]);
         ("query_users", None);
         ("mutation_createPost", Some ["title"; "authorId"])]
  | None => False
  end.
Proof. vm_compute. repeat split. Qed.

(** * Further properties of the code *)

(** ** Variable types *)

Lemma string_app_assoc s1 s2 s3 : (s1 +:+ s2) +:+ s3 = s1 +:+ (s2 +:+ s3).
Proof.
  induction s1 as [|c s1 IH]; [reflexivity|].
  change (String c s1 +:+ s2) with (String c (s1 +:+ s2)).
  change (String c (s1 +:+ s2) +:+ s3) with (String c ((s1 +:+ s2) +:+ s3)).
  change (String c s1 +:+ (s2 +:+ s3)) with (String c (s1 +:+ (s2 +:+ s3))).
  by rewrite IH.
Qed.

Lemma string_snoc_inj s1 s2 c1 c2 :
  s1 +:+ String c1 "" = s2 +:+ String c2 "" -> s1 = s2 /\ c1 = c2.
Proof.
  revert s2. induction s1 as [|a s1 IH]; intros [|b s2].
  - by intros [= ->].
  - change (String b s2 +:+ String c2 "") with (String b (s2 +:+ String c2 "")).
    intros [= _ H]. by destruct s2.
  - change (String a s1 +:+ String c1 "") with (String a (s1 +:+ String c1 "")).
    intros [= _ H]. by destruct s1.
  - change (String a s1 +:+ String c1 "") with (String a (s1 +:+ String c1 "")).
    change (String b s2 +:+ String c2 "") with (String b (s2 +:+ String c2 "")).
    intros [= -> H]. apply IH in H as [-> ->]. done.
Qed.

Lemma plainName_spec n :
  plainName n = true ->
  count_char "!" n = 0 /\ count_char "[" n = 0 /\ count_char "]" n = 0.
Proof.
  unfold plainName. intros [[H1 H2]%andb_prop H3]%andb_prop.
  repeat split; by apply Nat.eqb_eq.
Qed.

(** X1: the type text declared for a variable identifies the type: two
    types whose names contain none of [!], [[] and []] are printed alike
    only if they are the same type. *)
Theorem variable_type_text_identifies_type (t1 t2 : GraphQLType) :
  plainNames t1 = true -> plainNames t2 = true ->
  getGraphQLVariableType t1 = getGraphQLVariableType t2 -> t1 = t2.
Proof.
  revert t2. induction t1 as [a IH|a IH|n]; intros [b|b|m]; cbn [plainNames getGraphQLVariableType];
    intros H1 H2 Heq.
  - apply string_snoc_inj in Heq as [Heq _]. f_equal. by apply IH.
  - rewrite <- string_app_assoc in Heq.
    by apply string_snoc_inj in Heq as [_ [=]].
  - apply plainName_spec in H2 as (H2 & _ & _).
    rewrite <- Heq, count_char_app in H2. cbn in H2. lia.
  - rewrite <- string_app_assoc in Heq.
    by apply string_snoc_inj in Heq as [_ [=]].
  - rewrite <- !string_app_assoc in Heq.
    apply string_snoc_inj in Heq as [Heq _].
    apply string_app_inj in Heq. f_equal. by apply IH.
  - apply plainName_spec in H2 as (_ & H2 & _).
    rewrite <- Heq, count_char_app in H2. cbn in H2. lia.
  - apply plainName_spec in H1 as (H1 & _ & _).
    rewrite Heq, count_char_app in H1. cbn in H1. lia.
  - apply plainName_spec in H1 as (_ & H1 & _).
    rewrite Heq, count_char_app in H1. cbn in H1. lia.
  - by subst.
Qed.

Lemma variable_type_text_identifies_type_witness :
  plainNames (NonNull (ListOf (NonNull (Named "String")))) = true /\
  getGraphQLVariableType (NonNull (ListOf (NonNull (Named "String"))))
  = "[String!]!" /\
  NonNull (ListOf (NonNull (Named "String")))
  = NonNull (ListOf (NonNull (Named "String"))).
Proof.
  split; [reflexivity|]. split; [reflexivity|].
  apply (variable_type_text_identifies_type
           (NonNull (ListOf (NonNull (Named "String"))))
           (NonNull (ListOf (NonNull (Named "String")))));
    reflexivity.
Defined.

(** ** Memoisation *)

(** X2: the minimal selection is memoised by type name alone.  The
    first time a name is asked for, the text is computed from the field
    map, [documentId] taking precedence over [id]; asking again, even
    with another field map, returns the same text and changes nothing;
    entries under other names and the full cache are never touched. *)
Theorem minimal_selection_memoised_by_name
    (n : string) (fs fs' : FieldMap) (st : Caches) :
  getMinimalFieldSelection n fs' (snd (getMinimalFieldSelection n fs st))
  = getMinimalFieldSelection n fs st /\
  (minimalFieldSelectionCache st !! n = None ->
   fst (getMinimalFieldSelection n fs st) = minimalOf fs /\
   (hasKey "documentId" fs = true -> minimalOf fs = "{ documentId }")) /\
  typeFieldSelectionCache (snd (getMinimalFieldSelection n fs st))
  = typeFieldSelectionCache st /\
  forall k, k <> n ->
    minimalFieldSelectionCache (snd (getMinimalFieldSelection n fs st)) !! k
    = minimalFieldSelectionCache st !! k.
Proof.
  split; [|split; [|split]].
  - pose proof (getMinimalFieldSelection_cached n fs st) as Hc.
    destruct (getMinimalFieldSelection n fs st) as [m st1] eqn:E. cbn in *.
    unfold getMinimalFieldSelection at 1. by rewrite Hc.
  - intros Hn. unfold getMinimalFieldSelection, minimalOf. rewrite Hn.
    split; [reflexivity|]. by intros ->.
  - apply getMinimalFieldSelection_full.
  - intros k Hk. unfold getMinimalFieldSelection.
    destruct (minimalFieldSelectionCache st !! n); cbn; [done|].
    by rewrite lookup_insert_ne.
Qed.

(** X3: a call to the generator never rewrites what was cached before it
    started: every entry of either cache that is present when the call
    begins has the same value when it returns, and the text it returns
    is then cached under the type's name. *)
Theorem generator_keeps_existing_entries
    (tm : TypeMap) (fuel : nat) (n : string) (fs : FieldMap) (depth : nat)
    (st st' : Caches) (s : string) :
  generateFullFieldSelection tm fuel n fs depth st = Some (s, st') ->
  (forall k v, typeFieldSelectionCache st !! k = Some v ->
               typeFieldSelectionCache st' !! k = Some v) /\
  (forall k v, minimalFieldSelectionCache st !! k = Some v ->
               minimalFieldSelectionCache st' !! k = Some v) /\
  typeFieldSelectionCache st' !! n = Some s.
Proof.
  intros H. pose proof (generateFullFieldSelection_keepsEntries tm fuel _ _ _ _ _ _ H)
    as [Hf Hm].
  split; [exact Hf|]. split; [exact Hm|].
  by eapply generateFullFieldSelection_cached.
Qed.

Lemma generator_keeps_existing_entries_witness :
  exists s st',
    generateFullFieldSelection chainTypes 4 "A"
      [("id", mkField (Named "ID")); ("b", mkField (Named "B"))] 0
      (setFull "C" "{ id }" emptyCaches) = Some (s, st') /\
    typeFieldSelectionCache st' !! "C" = Some "{ id }" /\
    typeFieldSelectionCache st' !! "A" = Some s /\
    s = formatSelection 0
          ["id"; "b " +:+ formatSelection 1 ["id"; "c { id }"]].
Proof.
  destruct (generateFullFieldSelection chainTypes 4 "A"
              [("id", mkField (Named "ID")); ("b", mkField (Named "B"))] 0
              (setFull "C" "{ id }" emptyCaches)) as [[s st']|] eqn:E;
    [|vm_compute in E; discriminate].
  exists s, st'. split; [reflexivity|].
  destruct (generator_keeps_existing_entries _ _ _ _ _ _ _ _ E) as (Hf & _ & Hs).
  split; [apply Hf; reflexivity|]. split; [exact Hs|].
  vm_compute in E. injection E as <- _. reflexivity.
Defined.

(** ** One selection per type across the tools *)

Lemma generateFieldSelection_keepsEntries tm fuel t visited depth st s v st' :
  generateFieldSelection tm fuel t visited depth st = Some (s, v, st') ->
  keepsEntries st st'.
Proof.
  unfold generateFieldSelection.
  assert (Hcomposite : forall n fs,
    (if decide (n ∈ visited)
     then let '(minimal, st1) := getMinimalFieldSelection n fs st in
          Some (minimal, visited, st1)
     else match typeFieldSelectionCache st !! n with
          | Some s0 => Some (s0, visited, st)
          | None =>
              match generateFullFieldSelection tm fuel n fs depth st with
              | Some (selection, st1) =>
                  Some (selection, ({[n]} ∪ visited) ∖ {[n]}, st1)
              | None => None
              end
          end) = Some (s, v, st') -> keepsEntries st st').
  { intros n fs. case_decide.
    - pose proof (getMinimalFieldSelection_keepsEntries n fs st) as Hk.
      destruct (getMinimalFieldSelection n fs st). by intros [= _ _ <-].
    - destruct (typeFieldSelectionCache st !! n);
        [intros [= _ _ <-]; apply keepsEntries_refl|].
      destruct (generateFullFieldSelection tm fuel n fs depth st)
        as [[sel st1]|] eqn:Eg; [|discriminate].
      intros [= _ _ <-]. by eapply generateFullFieldSelection_keepsEntries. }
  destruct (stripWrappers t) as [| |n];
    try (intros [= _ _ <-]; apply keepsEntries_refl).
  destruct (assoc n tm) as [[]|]; eauto;
    intros [= _ _ <-]; apply keepsEntries_refl.
Qed.

Lemma generateFieldSelection_cached tm fuel t visited depth st s v st' n d :
  generateFieldSelection tm fuel t visited depth st = Some (s, v, st') ->
  stripWrappers t = Named n -> assoc n tm = Some d -> isComposite d = true ->
  n ∉ visited ->
  typeFieldSelectionCache st' !! n = Some s.
Proof.
  unfold generateFieldSelection. intros H Hs Hn Hd Hv. rewrite Hs, Hn in H.
  assert (Hcomposite : forall fs,
    (if decide (n ∈ visited)
     then let '(minimal, st1) := getMinimalFieldSelection n fs st in
          Some (minimal, visited, st1)
     else match typeFieldSelectionCache st !! n with
          | Some s0 => Some (s0, visited, st)
          | None =>
              match generateFullFieldSelection tm fuel n fs depth st with
              | Some (selection, st1) =>
                  Some (selection, ({[n]} ∪ visited) ∖ {[n]}, st1)
              | None => None
              end
          end) = Some (s, v, st') ->
    typeFieldSelectionCache st' !! n = Some s).
  { intros fs. case_decide; [done|].
    destruct (typeFieldSelectionCache st !! n) eqn:E;
      [by intros [= <- _ <-]|].
    destruct (generateFullFieldSelection tm fuel n fs depth st)
      as [[sel st1]|] eqn:Eg; [|discriminate].
    intros [= <- _ <-]. by eapply generateFullFieldSelection_cached. }
  destruct d; try discriminate; eauto.
Qed.

Lemma toolsForFields_selectionsCached tm op fields :
  forall tools st tools' st',
    selectionsCached tm st tools ->
    toolsForFields tm op fields tools st = Some (tools', st') ->
    selectionsCached tm st' tools' /\ keepsEntries st st'.
Proof.
  induction fields as [|[fname field] rest IH]; intros tools st tools' st' Ht;
    cbn [toolsForFields].
  - intros [= <- <-]. split; [exact Ht | apply keepsEntries_refl].
  - destruct (generateToolForField tm fname field op st) as [[tool st1]|] eqn:Et;
      [|discriminate].
    unfold generateToolForField in Et.
    destruct (collectArguments tm (field_args field) [] []) as [[p r]|];
      [|discriminate].
    destruct (generateFieldSelection tm selectionFuel (field_type field) ∅ 0 st)
      as [[[s v] st2]|] eqn:Es; [|discriminate].
    injection Et as <- <-.
    pose proof (generateFieldSelection_keepsEntries _ _ _ _ _ _ _ _ _ Es) as Hk.
    intros Hrest. apply IH in Hrest as [Hc Hk'].
    + split; [exact Hc|]. by eapply keepsEntries_trans.
    + apply Forall_app. split.
      * unfold selectionsCached in Ht. rewrite Forall_forall in Ht.
        apply Forall_forall. intros tool Hin info n d Hi Hsn Hn Hd.
        apply (proj1 Hk). by eapply Ht.
      * constructor; [|constructor]. cbn. intros info n d [= <-] Hsn Hn Hd. cbn in *.
        eapply generateFieldSelection_cached; eauto. set_solver.
Qed.

(** X4: every tool whose return type unwraps to an object or interface
    type carries exactly the text that the build leaves in the full cache
    for that type; two tools with the same underlying type, for instance a
    field returning [User] and one returning [[User]], therefore carry
    byte-identical selections. *)
Theorem tool_selections_are_cache_entries (schema : GraphQLSchema) (st0 : Caches) :
  exists tools st,
    generateMCPToolsFromSchema schema st0 = Some (tools, st) /\
    selectionsCached (typeMap schema) st tools /\
    forall tool1 tool2 info1 info2 n d,
      tool1 ∈ tools -> tool2 ∈ tools ->
      _graphql tool1 = Some info1 -> _graphql tool2 = Some info2 ->
      stripWrappers (returnType info1) = Named n ->
      stripWrappers (returnType info2) = Named n ->
      assoc n (typeMap schema) = Some d -> isComposite d = true ->
      fieldSelection info1 = fieldSelection info2.
Proof.
  destruct (generateMCPToolsFromSchema_total schema st0) as [[tools st] Hb].
  exists tools, st. split; [exact Hb|].
  unfold generateMCPToolsFromSchema in Hb.
  destruct (prewarm _ _ _) as [st1|]; [|discriminate].
  destruct (toolsForFields _ Query _ _ _) as [[tools1 st2]|] eqn:Eq; [|discriminate].
  apply toolsForFields_selectionsCached in Eq as [Hc1 _]; [|constructor].
  apply toolsForFields_selectionsCached in Hb as [Hc _]; [|exact Hc1].
  split; [exact Hc|].
  intros tool1 tool2 info1 info2 n d Hin1 Hin2 Hi1 Hi2 Hs1 Hs2 Hn Hd.
  unfold selectionsCached in Hc. rewrite Forall_forall in Hc.
  pose proof (Hc tool1 Hin1 info1 n d Hi1 Hs1 Hn Hd) as H1.
  pose proof (Hc tool2 Hin2 info2 n d Hi2 Hs2 Hn Hd) as H2.
  congruence.
Qed.

(** ** Parameter schemas *)

Lemma wrapperSchema_ext (named named' : string -> option JSONSchema) t s :
  (forall n r, named n = Some r -> named' n = Some r) ->
  wrapperSchema named t = Some s -> wrapperSchema named' t = Some s.
Proof.
  intros Hext. revert s. induction t as [t IH|t IH|n]; intros s; cbn.
  - apply IH.
  - destruct (wrapperSchema named t) as [i|]; [|discriminate].
    by rewrite (IH i eq_refl).
  - apply Hext.
Qed.

Lemma collectInputFields_ext (rec rec' : GraphQLType -> option JSONSchema) ifields :
  (forall t r, rec t = Some r -> rec' t = Some r) ->
  forall properties required r,
    collectInputFields rec ifields properties required = Some r ->
    collectInputFields rec' ifields properties required = Some r.
Proof.
  intros Hext. induction ifields as [|[fname field] rest IH];
    intros properties required r; cbn [collectInputFields]; [done|].
  destruct (rec (ifield_type field)) as [s|] eqn:E; [|discriminate].
  rewrite (Hext _ _ E). apply IH.
Qed.

Lemma getJSONSchemaType_fuel_mono tm fuel :
  forall fuel' t visited s,
    fuel <= fuel' ->
    getJSONSchemaType tm fuel t visited = Some s ->
    getJSONSchemaType tm fuel' t visited = Some s.
Proof.
  induction fuel as [|fuel IH]; intros fuel' t visited s Hle; [discriminate|].
  destruct fuel' as [|fuel']; [lia|]. cbn [getJSONSchemaType].
  apply wrapperSchema_ext. intros n r. unfold namedSchema.
  destruct (assoc n tm) as [[]|]; try done.
  case_decide; [done|].
  destruct (collectInputFields _ ifields [] []) as [[p q]|] eqn:Ec; [|discriminate].
  rewrite (collectInputFields_ext _
             (fun t0 => getJSONSchemaType tm fuel' t0 ({[n]} ∪ visited))
             ifields (fun t0 r0 => IH fuel' t0 _ r0 ltac:(lia)) _ _ _ Ec).
  done.
Qed.

(** X5: the parameter schema of any type is produced after finitely many
    expansions, also when input objects refer to themselves or to each
    other: a budget of one more than the number of types in the type map
    always yields a schema, and a larger budget yields the same one. *)
Theorem parameter_schema_terminates (tm : TypeMap) (t : GraphQLType) :
  exists s,
    forall fuel, schemaFuel tm <= fuel ->
      getJSONSchemaType tm fuel t ∅ = Some s.
Proof.
  destruct (getJSONSchemaType_top tm t) as [s Hs].
  exists s. intros fuel Hle. by eapply getJSONSchemaType_fuel_mono.
Qed.

Lemma assoc_setOwnProperty {A : Type} (k k' : string) (v : A) l :
  assoc k' (setOwnProperty k v l)
  = if String.eqb k' k then Some v else assoc k' l.
Proof.
  induction l as [|[k0 v0] l IH]; cbn [setOwnProperty assoc].
  - by destruct (String.eqb k' k).
  - destruct (String.eqb_spec k k0) as [->|Hne]; cbn [assoc].
    + by destruct (String.eqb k' k0).
    + rewrite IH. destruct (String.eqb_spec k' k0) as [->|Hne'];
        [|done].
      destruct (String.eqb_spec k0 k); [congruence|done].
Qed.

Lemma assoc_setProperty {A : Type} (k k' : string) (v : A) l :
  assoc k' (setProperty k v l)
  = if String.eqb k "__proto__" then assoc k' l
    else if String.eqb k' k then Some v else assoc k' l.
Proof.
  unfold setProperty. destruct (String.eqb k "__proto__"); [reflexivity|].
  apply assoc_setOwnProperty.
Qed.

Lemma collectArguments_properties tm fargs :
  forall properties required properties' required' p,
    collectArguments tm fargs properties required = Some (properties', required') ->
    (is_Some (assoc p properties') <->
     is_Some (assoc p properties) \/
     (p ∈ map arg_name fargs /\ p <> "__proto__")).
Proof.
  induction fargs as [|arg rest IH]; intros properties required properties' required' p;
    cbn [collectArguments map].
  - intros [= <- _]. split; [auto|]. intros [H|[H _]]; [done|].
    by apply elem_of_nil in H.
  - destruct (getJSONSchemaType _ _ _ _) as [s|]; [|discriminate].
    intros H. rewrite (IH _ _ _ _ p H), assoc_setProperty, elem_of_cons.
    destruct (String.eqb_spec (arg_name arg) "__proto__") as [Hproto|Hproto].
    + split; [intros [Hp|[Hp Hne]]; auto|].
      intros [Hp|[[Hp|Hp] Hne]]; auto. congruence.
    + destruct (String.eqb_spec p (arg_name arg)) as [->|Hne]; split; intros Hp; auto.
      * destruct Hp as [Hp|[Hp Hp']]; auto.
      * destruct Hp as [Hp|[[Hp|Hp] Hp']]; auto. contradiction.
Qed.

Lemma default_requiredOrAbsent l : default [] (requiredOrAbsent l) = l.
Proof. by destruct l. Qed.

(** X6: in a generated tool the required list holds, in argument order,
    exactly the arguments that are non-null and declare no default (and
    is absent when there is none).  The properties object has an own key
    for exactly the argument names other than [__proto__]: assigning
    under that name sets the prototype of the object instead.  So every
    required name other than [__proto__] has a property, and an argument
    named [__proto__] never has one, required or not. *)
Theorem tool_required_and_properties
    (tm : TypeMap) (fname : string) (field : GraphQLField)
    (op : OperationType) (st st' : Caches) (tool : MCPTool) :
  generateToolForField tm fname field op st = Some (tool, st') ->
  schema_required (inputSchema tool)
  = requiredOrAbsent (requiredArguments (field_args field)) /\
  (forall p, is_Some (assoc p (schema_properties (inputSchema tool))) <->
             p ∈ map arg_name (field_args field) /\ p <> "__proto__") /\
  (forall p, p ∈ default [] (schema_required (inputSchema tool)) ->
             p <> "__proto__" ->
             is_Some (assoc p (schema_properties (inputSchema tool)))) /\
  assoc "__proto__" (schema_properties (inputSchema tool)) = None.
Proof.
  unfold generateToolForField.
  destruct (collectArguments tm (field_args field) [] []) as [[p r]|] eqn:Ec;
    [|discriminate].
  destruct (generateFieldSelection _ _ _ _ _ _) as [[[s v] st1]|]; [|discriminate].
  intros [= <- _]. cbn [inputSchema schema_required schema_properties].
  pose proof (collectArguments_required _ _ _ _ _ _ Ec) as Hr. cbn in Hr.
  assert (Hp : forall q, is_Some (assoc q p) <->
                         q ∈ map arg_name (field_args field) /\ q <> "__proto__").
  { intros q. rewrite (collectArguments_properties _ _ _ _ _ _ q Ec). cbn.
    split; [intros [[? [=]]|H]; exact H | auto]. }
  subst r. split; [reflexivity|]. split; [exact Hp|]. split.
  - intros q. rewrite default_requiredOrAbsent. unfold requiredArguments.
    intros (a & -> & Ha%list_elem_of_In%filter_In)%list_elem_of_fmap Hne.
    apply Hp. split; [|exact Hne]. apply list_elem_of_fmap. exists a.
    split; [done|]. apply list_elem_of_In. tauto.
  - destruct (assoc "__proto__" p) as [x|] eqn:E; [|reflexivity].
    assert (Hs : is_Some (assoc "__proto__" p)) by (rewrite E; eauto).
    apply Hp in Hs as [_ Hne]. contradiction.
Qed.

Lemma tool_required_and_properties_witness :
  exists tool st',
    generateToolForField (typeMap forumSchema) "lookup" lookupField
      Query emptyCaches = Some (tool, st') /\
    schema_required (inputSchema tool) = Some ["__proto__"; "id"] /\
    schema_properties (inputSchema tool)
    = [("id", SchemaLeaf "string" None None);
       ("limit", SchemaLeaf "integer" None None)] /\
    (forall p, is_Some (assoc p (schema_properties (inputSchema tool))) <->
               p ∈ ["__proto__"; "id"; "limit"] /\ p <> "__proto__").
Proof.
  destruct (generateToolForField (typeMap forumSchema) "lookup" lookupField
              Query emptyCaches) as [[tool st']|] eqn:E;
    [|vm_compute in E; discriminate].
  exists tool, st'. split; [reflexivity|].
  destruct (tool_required_and_properties _ _ _ _ _ _ _ E) as (Hr & Hp & _).
  split; [exact Hr|]. split; [|exact Hp].
  vm_compute in E. by injection E as <- _.
Defined.

(** ** The operation text *)

Lemma string_app_empty_r s : s +:+ "" = s.
Proof.
  induction s as [|c s IH]; [reflexivity|].
  change (String c s +:+ "") with (String c (s +:+ "")). by rewrite IH.
Qed.

Lemma rev_app_app s1 s2 acc :
  String.rev_app (s1 +:+ s2) acc = String.rev_app s2 (String.rev_app s1 acc).
Proof.
  revert acc. induction s1 as [|c s1 IH]; intros acc; [reflexivity|].
  change (String c s1 +:+ s2) with (String c (s1 +:+ s2)). cbn. apply IH.
Qed.

Lemma rev_app_rev_app s a b :
  String.rev_app (String.rev_app s a) b = String.rev_app a (s +:+ b).
Proof.
  revert a b. induction s as [|c s IH]; intros a b; [reflexivity|].
  cbn [String.rev_app]. rewrite IH. reflexivity.
Qed.

Lemma string_rev_involutive s : String.rev (String.rev s) = s.
Proof.
  unfold String.rev. rewrite rev_app_rev_app. cbn. apply string_app_empty_r.
Qed.

Lemma trimStart_spaces lead s :
  allSpaces lead = true -> trimStart (lead +:+ s) = trimStart s.
Proof.
  induction lead as [|c lead IH]; [reflexivity|].
  cbn [allSpaces]. intros [Hc Hl]%andb_prop.
  change (String c lead +:+ s) with (String c (lead +:+ s)).
  cbn [trimStart]. rewrite Hc. by apply IH.
Qed.

Lemma trimStart_rev_spaces trail s :
  allSpaces trail = true -> trimStart (String.rev_app trail s) = trimStart s.
Proof.
  revert s. induction trail as [|c trail IH]; intros s; [reflexivity|].
  cbn [allSpaces String.rev_app]. intros [Hc Hl]%andb_prop.
  rewrite IH by done. cbn [trimStart]. by rewrite Hc.
Qed.

(** Trimming removes the white space around a text that begins and ends
    with a character that is not white space, and nothing else. *)
Lemma trim_core lead core trail c tail body d :
  allSpaces lead = true -> allSpaces trail = true ->
  core = String c tail -> isSpace c = false ->
  core = body +:+ String d "" -> isSpace d = false ->
  trim (lead +:+ core +:+ trail) = core.
Proof.
  intros Hl Ht Hc Hcs Hd Hds. unfold trim.
  rewrite trimStart_spaces by done.
  assert (Hstart : trimStart (core +:+ trail) = core +:+ trail).
  { rewrite Hc. change (String c tail +:+ trail) with (String c (tail +:+ trail)).
    cbn [trimStart]. by rewrite Hcs. }
  rewrite Hstart. unfold String.rev at 2. rewrite rev_app_app.
  rewrite trimStart_rev_spaces by done.
  assert (Hrev : String.rev_app core "" = String d (String.rev body)).
  { rewrite Hd, rev_app_app. reflexivity. }
  rewrite Hrev. cbn [trimStart]. rewrite Hds, <- Hrev.
  apply string_rev_involutive.
Qed.

(** X7: the operation sent upstream is
    [<kind> <field>Operation(<declarations>) { <field>(<bindings>) <selection> }]
    with the template's line breaks inside and none of its surrounding
    white space, whatever the field and its selection are; each variable is
    declared with the text of its GraphQL type, and both parenthesised
    lists are left out when the field takes no argument. *)
Theorem operation_text_closed_form (graphqlInfo : GraphQLInfo) :
  buildGraphQLOperation graphqlInfo = operationText graphqlInfo /\
  (args graphqlInfo = [] ->
   buildGraphQLOperation graphqlInfo
   = operationTypeName (operationType graphqlInfo) +:+ " "
     +:+ fieldName graphqlInfo +:+ "Operation {" +:+ nl +:+ "        "
     +:+ fieldName graphqlInfo +:+ " " +:+ fieldSelection graphqlInfo
     +:+ nl +:+ "      }").
Proof.
  assert (Hclosed : buildGraphQLOperation graphqlInfo = operationText graphqlInfo).
  { unfold buildGraphQLOperation.
    fold (declaredVariables (args graphqlInfo)).
    fold (boundVariables (args graphqlInfo)).
    set (decl := declaredVariables (args graphqlInfo)).
    set (usage := boundVariables (args graphqlInfo)).
    assert (Hshape :
      nl +:+ "      " +:+ operationTypeName (operationType graphqlInfo) +:+ " "
      +:+ fieldName graphqlInfo +:+ "Operation" +:+ decl
      +:+ " {" +:+ nl +:+ "        " +:+ fieldName graphqlInfo +:+ usage
      +:+ " " +:+ fieldSelection graphqlInfo +:+ nl +:+ "      }" +:+ nl +:+ "    "
      = (nl +:+ "      ") +:+ operationText graphqlInfo +:+ (nl +:+ "    ")).
    { unfold operationText. fold decl usage.
      rewrite !string_app_assoc. reflexivity. }
    rewrite Hshape.
    destruct (operationType graphqlInfo) eqn:Eop.
    - eapply (trim_core _ _ _ "q"
                ("uery" +:+ " " +:+ fieldName graphqlInfo +:+ "Operation" +:+ decl
                 +:+ " {" +:+ nl +:+ "        " +:+ fieldName graphqlInfo +:+ usage
                 +:+ " " +:+ fieldSelection graphqlInfo +:+ nl +:+ "      }")
                (operationTypeName Query +:+ " " +:+ fieldName graphqlInfo
                 +:+ "Operation" +:+ decl +:+ " {" +:+ nl +:+ "        "
                 +:+ fieldName graphqlInfo +:+ usage +:+ " "
                 +:+ fieldSelection graphqlInfo +:+ nl +:+ "      ") "}");
        try reflexivity.
      + unfold operationText. rewrite Eop. reflexivity.
      + unfold operationText. rewrite Eop. fold decl usage.
        rewrite !string_app_assoc. reflexivity.
    - eapply (trim_core _ _ _ "m"
                ("utation" +:+ " " +:+ fieldName graphqlInfo +:+ "Operation" +:+ decl
                 +:+ " {" +:+ nl +:+ "        " +:+ fieldName graphqlInfo +:+ usage
                 +:+ " " +:+ fieldSelection graphqlInfo +:+ nl +:+ "      }")
                (operationTypeName Mutation +:+ " " +:+ fieldName graphqlInfo
                 +:+ "Operation" +:+ decl +:+ " {" +:+ nl +:+ "        "
                 +:+ fieldName graphqlInfo +:+ usage +:+ " "
                 +:+ fieldSelection graphqlInfo +:+ nl +:+ "      ") "}");
        try reflexivity.
      + unfold operationText. rewrite Eop. reflexivity.
      + unfold operationText. rewrite Eop. fold decl usage.
        rewrite !string_app_assoc. reflexivity. }
  split; [exact Hclosed|].
  intros Hargs. rewrite Hclosed. unfold operationText. rewrite Hargs.
  reflexivity.
Qed.

(** ** Outcomes of a call *)

(** X8: a call succeeds exactly when the tool is known, carries its
    GraphQL details, no required parameter is missing and the upstream
    request resolves; the text returned is then the upstream's.  When the
    tool is unknown or a parameter is missing, the result is the same
    whatever the upstream would do: no request is made. *)
Theorem call_outcomes
    (request : string -> CallArgs -> Response) (tools : list MCPTool)
    (toolName : string) (cargs : CallArgs) :
  (isError (callTool request tools toolName cargs) = false <->
   exists tool graphqlInfo text,
     List.find (fun t => String.eqb (name t) toolName) tools = Some tool /\
     _graphql tool = Some graphqlInfo /\
     validateRequiredParameters tool cargs = [] /\
     request (buildGraphQLOperation graphqlInfo) cargs = Resolved text /\
     content_text (callTool request tools toolName cargs) = text) /\
  ((forall tool graphqlInfo,
      List.find (fun t => String.eqb (name t) toolName) tools = Some tool ->
      _graphql tool = Some graphqlInfo ->
      validateRequiredParameters tool cargs <> []) ->
   forall request',
     callTool request' tools toolName cargs = callTool request tools toolName cargs).
Proof.
  unfold callTool, tryCallTool. split.
  - destruct (List.find _ tools) as [tool|] eqn:Ef; cbn;
      [|split; [discriminate|]; intros (? & ? & ? & [=] & _)].
    destruct (_graphql tool) as [info|] eqn:Eg; cbn;
      [|split; [discriminate|];
        intros (? & ? & ? & [= <-] & Hg & _); congruence].
    destruct (validateRequiredParameters tool cargs) as [|p l] eqn:Ev; cbn;
      [|split; [discriminate|];
        intros (? & ? & ? & [= <-] & _ & Hv & _); congruence].
    destruct (request (buildGraphQLOperation info) cargs) as [text| |] eqn:Er;
      cbn; split; try discriminate; try done.
    + intros _. by exists tool, info, text.
    + intros (? & i & ? & [= <-] & Hg & _ & Hr & _).
      rewrite Eg in Hg. injection Hg as <-. congruence.
    + intros (? & i & ? & [= <-] & Hg & _ & Hr & _).
      rewrite Eg in Hg. injection Hg as <-. congruence.
  - intros Hno request'.
    destruct (List.find _ tools) as [tool|]; [|reflexivity].
    destruct (_graphql tool) as [info|] eqn:Eg; [|reflexivity].
    specialize (Hno tool info eq_refl Eg).
    destruct (validateRequiredParameters tool cargs); [done|reflexivity].
Qed.

(** X9: for every schema the plain tool list of [introspect.ts] and the
    registry of [tool-generator.ts] name and describe the same operations
    in the same order; the plain tools carry no GraphQL details, so the
    call handler answers a call to any of them with "Unknown tool". *)
Lemma toolsForFields_heads tm op fields :
  forall tools st tools' st',
    toolsForFields tm op fields tools st = Some (tools', st') ->
    map (fun t => (name t, description t)) tools'
    = map (fun t => (name t, description t)) tools
      ++ map (fun f => (name (plainTool op (fst f) (snd f)),
                        description (plainTool op (fst f) (snd f)))) fields.
Proof.
  induction fields as [|[fname field] rest IH]; intros tools st tools' st';
    cbn [toolsForFields].
  - intros [= <- <-]. cbn. by rewrite app_nil_r.
  - destruct (generateToolForField tm fname field op st) as [[tool st1]|] eqn:Et;
      [|discriminate].
    unfold generateToolForField in Et.
    destruct (collectArguments tm (field_args field) [] []) as [[p r]|];
      [|discriminate].
    destruct (generateFieldSelection _ _ _ _ _ _) as [[[s v] st2]|]; [|discriminate].
    injection Et as <- <-.
    intros ->%IH. rewrite map_app, <- app_assoc. reflexivity.
Qed.

Theorem plain_tools_match_registry
    (schema : GraphQLSchema) (st0 : Caches)
    (request : string -> CallArgs -> Response) (toolName : string)
    (cargs : CallArgs) :
  (exists tools st,
     generateMCPToolsFromSchema schema st0 = Some (tools, st) /\
     map name tools = map name (generateToolsFromSchema schema) /\
     map description tools = map description (generateToolsFromSchema schema)) /\
  callTool request (generateToolsFromSchema schema) toolName cargs
  = {| content_text :=
         "Error executing " +:+ toolName +:+ ": Unknown tool: " +:+ toolName;
       isError := true |}.
Proof.
  split.
  - destruct (generateMCPToolsFromSchema_total schema st0) as [[tools st] Hb].
    exists tools, st. split; [exact Hb|].
    unfold generateMCPToolsFromSchema in Hb.
    destruct (prewarm _ _ _) as [st1|]; [|discriminate].
    destruct (toolsForFields _ Query _ _ _) as [[tools1 st2]|] eqn:Eq; [|discriminate].
    apply toolsForFields_heads in Eq. apply toolsForFields_heads in Hb.
    rewrite Eq in Hb. cbn [map app] in Hb.
    assert (Hpairs : map (fun t => (name t, description t)) tools
                     = map (fun t => (name t, description t))
                         (generateToolsFromSchema schema)).
    { rewrite Hb. unfold generateToolsFromSchema. by rewrite map_app, !map_map. }
    split.
    + apply (f_equal (map fst)) in Hpairs. by rewrite !map_map in Hpairs.
    + apply (f_equal (map snd)) in Hpairs. by rewrite !map_map in Hpairs.
  - unfold callTool, tryCallTool.
    destruct (List.find _ (generateToolsFromSchema schema)) as [tool|] eqn:Ef;
      [|reflexivity].
    apply find_some in Ef as [Hin _].
    assert (Hnone : _graphql tool = None).
    { unfold generateToolsFromSchema in Hin.
      apply in_app_or in Hin as [Hin|Hin];
        apply in_map_iff in Hin as (f & <- & _); reflexivity. }
    by rewrite Hnone.
Qed.

Lemma prefix_app p s : String.prefix p (p +:+ s) = true.
Proof.
  induction p as [|c p IH]; [by destruct s|].
  change (String c p +:+ s) with (String c (p +:+ s)). cbn.
  destruct (ascii_dec c c); [exact IH | contradiction].
Qed.

Lemma skip_app p s : skip (String.length p) (p +:+ s) = s.
Proof.
  induction p as [|c p IH]; [reflexivity|].
  change (String c p +:+ s) with (String c (p +:+ s)). cbn. exact IH.
Qed.

(** X10: the handler of [http-server.ts] recovers kind and field from a
    tool name of the registry: for the name of field [f] under either
    kind it requests the operation built for that kind and for [f] itself
    (also when [f] begins with [query_] or [mutation_]); a name with
    neither prefix is answered with "Unknown tool" without any request. *)
Theorem http_handler_decodes_tool_names
    (request : string -> CallArgs -> Response) (op : OperationType)
    (fname : string) (cargs : CallArgs) :
  stripToolPrefix (toolNameFor op fname) = fname /\
  httpTryCallTool request (toolNameFor op fname) cargs
  = upstreamOutcome
      (request (httpBuildGraphQLOperation (operationTypeName op) fname cargs) cargs) /\
  forall other,
    String.prefix "query_" other = false ->
    String.prefix "mutation_" other = false ->
    httpCallTool request other cargs
    = {| content_text :=
           "Error executing " +:+ other +:+ ": Unknown tool: " +:+ other;
         isError := true |}.
Proof.
  assert (Hq : String.prefix "query_" (toolNameFor Query fname) = true)
    by apply (prefix_app "query_").
  assert (Hm : String.prefix "mutation_" (toolNameFor Mutation fname) = true)
    by apply (prefix_app "mutation_").
  assert (Hqm : String.prefix "query_" (toolNameFor Mutation fname) = false)
    by reflexivity.
  assert (Hstrip : stripToolPrefix (toolNameFor op fname) = fname).
  { unfold stripToolPrefix. destruct op.
    - rewrite Hq. apply (skip_app "query_").
    - rewrite Hqm, Hm. apply (skip_app "mutation_"). }
  split; [exact Hstrip|]. split.
  - unfold httpTryCallTool. rewrite Hstrip.
    destruct op; [by rewrite Hq | by rewrite Hqm, Hm].
  - intros other Hq' Hm'. unfold httpCallTool, httpTryCallTool.
    by rewrite Hq', Hm'.
Qed.

(** ** Validation at the edges *)

Lemma filter_all {A : Type} (f : A -> bool) l :
  (forall x, f x = true) -> List.filter f l = l.
Proof.
  intros Hf. induction l as [|x l IH]; [reflexivity|].
  cbn. by rewrite Hf, IH.
Qed.

Lemma filter_sublist_of {A : Type} (f : A -> bool) l :
  sublist (List.filter f l) l.
Proof.
  induction l as [|x l IH]; cbn; [constructor|].
  destruct (f x); by constructor.
Qed.

(** X11: when the arguments of a call are absent or [null], every
    required parameter is reported missing, in the order of the required
    list; for any arguments the names reported are a sub-sequence of the
    required list, and a tool without a required list never reports
    anything. *)
Theorem validation_edge_cases (tool : MCPTool) (cargs : CallArgs) :
  validateRequiredParameters tool ArgsUndefined
  = default [] (schema_required (inputSchema tool)) /\
  validateRequiredParameters tool ArgsNull
  = default [] (schema_required (inputSchema tool)) /\
  sublist (validateRequiredParameters tool cargs)
    (default [] (schema_required (inputSchema tool))) /\
  (schema_required (inputSchema tool) = None ->
   validateRequiredParameters tool cargs = []).
Proof.
  unfold validateRequiredParameters. repeat split.
  - by apply filter_all.
  - by apply filter_all.
  - apply filter_sublist_of.
  - by intros ->.
Qed.

(** ** Request headers *)

Lemma removeFirst_prefix pattern s :
  String.prefix pattern s = true ->
  removeFirst pattern s = skip (String.length pattern) s.
Proof. intros H. destruct s; cbn [removeFirst]; by rewrite H. Qed.

Lemma dashes_no_underscore s : count_char "_" (dashes s) = 0.
Proof.
  induction s as [|c s IH]; [reflexivity|]. cbn [dashes count_char].
  rewrite IH. destruct (Ascii.eqb_spec c "_") as [->|Hne]; [reflexivity|].
  destruct (Ascii.eqb_spec "_" c); [congruence|reflexivity].
Qed.

Lemma setProperty_keys {A : Type} (P : string -> Prop) k (v : A) l :
  P k -> Forall (fun h => P (fst h)) l ->
  Forall (fun h => P (fst h)) (setProperty k v l).
Proof.
  intros Hk Hl. unfold setProperty.
  destruct (String.eqb k "__proto__"); [exact Hl|].
  induction Hl as [|[k0 v0] l H0 Hl IH]; cbn [setOwnProperty].
  - by repeat constructor.
  - destruct (String.eqb k k0); constructor; auto.
Qed.

Lemma addCustomHeaders_keys env :
  forall headers,
    Forall (fun h => count_char "_" (fst h) = 0) headers ->
    Forall (fun h => count_char "_" (fst h) = 0) (addCustomHeaders env headers).
Proof.
  induction env as [|[key value] rest IH]; intros headers Hh; [exact Hh|].
  cbn [addCustomHeaders]. apply IH.
  destruct (String.prefix "GRAPHQL_HEADER_" key); [|exact Hh].
  apply (setProperty_keys (fun k => count_char "_" k = 0));
    [apply dashes_no_underscore | exact Hh].
Qed.

Lemma addCustomHeaders_app e1 e2 headers :
  addCustomHeaders (e1 ++ e2) headers
  = addCustomHeaders e2 (addCustomHeaders e1 headers).
Proof.
  revert headers. induction e1 as [|[key value] e1 IH]; intros headers;
    [reflexivity|]. cbn [app addCustomHeaders]. apply IH.
Qed.

Lemma addCustomHeaders_other env header :
  (forall key value, (key, value) ∈ env ->
     String.prefix "GRAPHQL_HEADER_" key = true -> headerNameOf key <> header) ->
  forall headers,
    assoc header (addCustomHeaders env headers) = assoc header headers.
Proof.
  induction env as [|[key value] rest IH]; intros Hother headers; [reflexivity|].
  cbn [addCustomHeaders]. rewrite IH.
  - destruct (String.prefix "GRAPHQL_HEADER_" key) eqn:Ep; [|reflexivity].
    rewrite assoc_setProperty.
    destruct (String.eqb (headerNameOf key) "__proto__"); [reflexivity|].
    destruct (String.eqb_spec header (headerNameOf key)) as [->|Hne]; [|reflexivity].
    exfalso. apply (Hother key value); [left | exact Ep | reflexivity].
  - intros k v Hin. apply (Hother k v). by right.
Qed.

(** X12: the headers [main] derives from the environment.  No header
    name contains an underscore: the name for [GRAPHQL_HEADER_<rest>] is
    [<rest>] with every underscore turned into a dash.  The value of a
    header is the one of the last variable that maps to its name; in
    particular a [GRAPHQL_HEADER_Authorization] variable replaces the
    value taken from [GRAPHQL_AUTH_HEADER]. *)
Theorem custom_headers (env : list (string * string)) :
  Forall (fun h => count_char "_" (fst h) = 0) (configHeaders env) /\
  (forall rest, headerNameOf ("GRAPHQL_HEADER_" +:+ rest) = dashes rest) /\
  forall e1 key value e2,
    env = e1 ++ (key, value) :: e2 ->
    String.prefix "GRAPHQL_HEADER_" key = true ->
    (forall key' value', (key', value') ∈ e2 ->
       String.prefix "GRAPHQL_HEADER_" key' = true ->
       headerNameOf key' <> headerNameOf key) ->
    assoc (headerNameOf key) (configHeaders env) = Some value.
Proof.
  split; [|split].
  - unfold configHeaders. apply addCustomHeaders_keys.
    destruct (assoc "GRAPHQL_AUTH_HEADER" env) as [v|]; [|constructor].
    destruct (truthy v); repeat constructor.
  - intros rest. unfold headerNameOf.
    rewrite removeFirst_prefix by apply (prefix_app "GRAPHQL_HEADER_").
    by rewrite (skip_app "GRAPHQL_HEADER_").
  - intros e1 key value e2 -> Hp Hlater. unfold configHeaders.
    rewrite addCustomHeaders_app. cbn [addCustomHeaders]. rewrite Hp.
    rewrite addCustomHeaders_other by exact Hlater.
    rewrite assoc_setProperty, String.eqb_refl.
    destruct (String.eqb_spec (headerNameOf key) "__proto__") as [Hproto|_];
      [|reflexivity].
    pose proof (dashes_no_underscore (removeFirst "GRAPHQL_HEADER_" key)) as Hd.
    fold (headerNameOf key) in Hd. rewrite Hproto in Hd. discriminate Hd.
Qed.

Lemma custom_headers_witness :
  configHeaders
    [("GRAPHQL_AUTH_HEADER", "Bearer one");
     ("GRAPHQL_HEADER_X_API_KEY", "k");
     ("GRAPHQL_HEADER_Authorization", "Bearer two");
     ("HOME", "/root")]
  = [("Authorization", "Bearer two"); ("X-API-KEY", "k")] /\
  assoc (headerNameOf "GRAPHQL_HEADER_Authorization")
    (configHeaders
       [("GRAPHQL_AUTH_HEADER", "Bearer one");
        ("GRAPHQL_HEADER_X_API_KEY", "k");
        ("GRAPHQL_HEADER_Authorization", "Bearer two");
        ("HOME", "/root")])
  = Some "Bearer two".
Proof.
  split; [reflexivity|].
  apply (proj2 (proj2 (custom_headers _))
           [("GRAPHQL_AUTH_HEADER", "Bearer one"); ("GRAPHQL_HEADER_X_API_KEY", "k")]
           "GRAPHQL_HEADER_Authorization" "Bearer two" [("HOME", "/root")]);
    [reflexivity | reflexivity |].
  intros key' value' Hin Hp.
  apply list_elem_of_singleton in Hin. injection Hin as -> ->. discriminate Hp.
Defined.

(** ** What the caches hold after a build *)

Lemma assoc_elem_of {A : Type} (k : string) (v : A) l :
  assoc k l = Some v -> (k, v) ∈ l.
Proof.
  induction l as [|[k0 v0] l IH]; [discriminate|]. cbn [assoc].
  destruct (String.eqb_spec k k0) as [->|Hne].
  - intros [= ->]. left.
  - intros H. right. by apply IH.
Qed.

Lemma classify_listed tm t cn cfs :
  classify tm t = CkComposite cn cfs -> listed tm cn cfs.
Proof.
  intros [_ [H|H]]%classify_composite; apply assoc_elem_of in H;
    [by left | by right].
Qed.

Section CacheInvariant.

Variable tm : TypeMap.
Variables F M : string -> string -> Prop.

Hypothesis minimal_ok : forall n fs, listed tm n fs -> M n (minimalOf fs).
Hypothesis minimal_as_full : forall n v, M n v -> F n v.
Hypothesis format_ok :
  forall n fs depth l, listed tm n fs -> F n (formatSelection depth l).

Lemma getMinimalFieldSelection_satisfies n fs st :
  listed tm n fs -> cachesSatisfy F M st ->
  M n (fst (getMinimalFieldSelection n fs st)) /\
  cachesSatisfy F M (snd (getMinimalFieldSelection n fs st)).
Proof.
  intros Hl [Hf Hm]. unfold getMinimalFieldSelection.
  destruct (minimalFieldSelectionCache st !! n) eqn:E; cbn.
  - split; [by apply Hm | by split].
  - fold (minimalOf fs). split; [by apply minimal_ok|]. split; [exact Hf|].
    intros k v. cbn. rewrite lookup_insert. case_decide.
    + subst k. intros [= <-]. by apply minimal_ok.
    + apply Hm.
Qed.

Lemma setFull_satisfies n s st :
  F n s -> cachesSatisfy F M st -> cachesSatisfy F M (setFull n s st).
Proof.
  intros Hs [Hf Hm]. split; [|exact Hm].
  intros k v. cbn. rewrite lookup_insert. case_decide.
  - subst k. by intros [= <-].
  - apply Hf.
Qed.

Lemma collectFieldSelections_satisfies (rec : Generator) typeName depth fields :
  (forall n fs d st s st',
     listed tm n fs -> cachesSatisfy F M st -> rec n fs d st = Some (s, st') ->
     cachesSatisfy F M st') ->
  forall acc st l st',
    cachesSatisfy F M st ->
    collectFieldSelections tm rec typeName depth fields acc st = Some (l, st') ->
    cachesSatisfy F M st'.
Proof.
  intros Hrec. induction fields as [|[fname field] rest IH]; intros acc st l st' Hst;
    cbn [collectFieldSelections]; [by intros [= _ <-]|].
  destruct (fieldSelectionEntry tm rec typeName depth fname field st)
    as [[e st1]|] eqn:Ee; [|discriminate].
  apply IH. unfold fieldSelectionEntry in Ee.
  destruct (classify tm _) as [cn cfs| |] eqn:Ec;
    [|by injection Ee as _ <-..].
  apply classify_listed in Ec.
  destruct (String.eqb cn typeName).
  - pose proof (getMinimalFieldSelection_satisfies cn cfs st Ec Hst) as [_ Hst1].
    destruct (getMinimalFieldSelection cn cfs st) as [m st2]. cbn in Hst1.
    destruct (truthy m); by injection Ee as _ <-.
  - destruct (rec cn cfs (depth + 1) st) as [[s st2]|] eqn:Er; [|discriminate].
    apply Hrec in Er; [|done..].
    destruct (truthy s); by injection Ee as _ <-.
Qed.

Lemma generateFullFieldSelection_satisfies fuel :
  forall n fs depth st s st',
    listed tm n fs -> cachesSatisfy F M st ->
    generateFullFieldSelection tm fuel n fs depth st = Some (s, st') ->
    cachesSatisfy F M st'.
Proof.
  induction fuel as [|fuel IH]; intros n fs depth st s st' Hl Hst;
    cbn [generateFullFieldSelection];
    (destruct (typeFieldSelectionCache st !! n) eqn:En; [by intros [= _ <-]|]).
  - destruct (Nat.ltb 3 depth); [|discriminate].
    pose proof (getMinimalFieldSelection_satisfies n fs st Hl Hst) as [Hm Hst1].
    destruct (getMinimalFieldSelection n fs st) as [m st1].
    intros [= _ <-]. apply setFull_satisfies; [by apply minimal_as_full | done].
  - destruct (Nat.ltb 3 depth).
    + pose proof (getMinimalFieldSelection_satisfies n fs st Hl Hst) as [Hm Hst1].
      destruct (getMinimalFieldSelection n fs st) as [m st1].
      intros [= _ <-]. apply setFull_satisfies; [by apply minimal_as_full | done].
    + destruct (collectFieldSelections _ _ _ _ _ _ _) as [[l st1]|] eqn:Ec;
        [|discriminate].
      apply (collectFieldSelections_satisfies _ _ _ _ IH) in Ec; [|exact Hst].
      intros [= _ <-]. apply setFull_satisfies; [by eapply format_ok | done].
Qed.

Lemma generateFieldSelection_satisfies fuel t visited depth st s v st' :
  cachesSatisfy F M st ->
  generateFieldSelection tm fuel t visited depth st = Some (s, v, st') ->
  selectionSatisfies F s /\ cachesSatisfy F M st'.
Proof.
  intros Hst. unfold generateFieldSelection, selectionSatisfies.
  assert (Hcomposite : forall n fs, listed tm n fs ->
    (if decide (n ∈ visited)
     then let '(minimal, st1) := getMinimalFieldSelection n fs st in
          Some (minimal, visited, st1)
     else match typeFieldSelectionCache st !! n with
          | Some s0 => Some (s0, visited, st)
          | None =>
              match generateFullFieldSelection tm fuel n fs depth st with
              | Some (selection, st1) =>
                  Some (selection, ({[n]} ∪ visited) ∖ {[n]}, st1)
              | None => None
              end
          end) = Some (s, v, st') ->
    (s = "" \/ s = "{ __typename }" \/ exists n0, F n0 s) /\ cachesSatisfy F M st').
  { intros n fs Hl. case_decide.
    - pose proof (getMinimalFieldSelection_satisfies n fs st Hl Hst) as [Hm Hst1].
      destruct (getMinimalFieldSelection n fs st) as [m st1].
      intros [= <- _ <-]. split; [|done]. right. right. exists n.
      by apply minimal_as_full.
    - destruct (typeFieldSelectionCache st !! n) eqn:E.
      + intros [= <- _ <-]. split; [|done]. right. right. exists n.
        by apply (proj1 Hst).
      + destruct (generateFullFieldSelection tm fuel n fs depth st)
          as [[sel st1]|] eqn:Eg; [|discriminate].
        intros [= <- _ <-].
        pose proof (generateFullFieldSelection_cached _ _ _ _ _ _ _ _ Eg) as Hc.
        apply generateFullFieldSelection_satisfies in Eg; [|done..].
        split; [|done]. right. right. exists n. by apply (proj1 Eg). }
  destruct (stripWrappers t) as [| |n]; try (intros [= <- _ <-]; by auto).
  destruct (assoc n tm) as [d|] eqn:En; [|intros [= <- _ <-]; by auto].
  apply assoc_elem_of in En.
  destruct d; try (intros [= <- _ <-]; by auto).
  - apply Hcomposite. by left.
  - apply Hcomposite. by right.
Qed.

Lemma prewarm_satisfies types :
  (forall x, x ∈ types -> x ∈ tm) ->
  forall st st',
    cachesSatisfy F M st -> prewarm tm types st = Some st' ->
    cachesSatisfy F M st'.
Proof.
  induction types as [|[n d] rest IH]; intros Hsub st st' Hst;
    [cbn; by intros [= <-]|].
  assert (Hrest : forall x, x ∈ rest -> x ∈ tm) by (intros x Hx; apply Hsub; by right).
  assert (Hhead : (n, d) ∈ tm) by (apply Hsub; left).
  destruct d; cbn [prewarm]; try (by apply IH);
    (destruct (String.prefix "__" n); [by apply IH|]);
    (destruct (generateFullFieldSelection tm selectionFuel n fields 0 st)
       as [[s st1]|] eqn:Eg; [|discriminate]);
    (apply generateFullFieldSelection_satisfies in Eg;
     [by apply IH | by (left + right) | done]).
Qed.

Lemma toolsForFields_satisfies op fields :
  forall tools st tools' st',
    Forall (fun tool => forall info,
              _graphql tool = Some info ->
              selectionSatisfies F (fieldSelection info)) tools ->
    cachesSatisfy F M st ->
    toolsForFields tm op fields tools st = Some (tools', st') ->
    Forall (fun tool => forall info,
              _graphql tool = Some info ->
              selectionSatisfies F (fieldSelection info)) tools' /\
    cachesSatisfy F M st'.
Proof.
  induction fields as [|[fname field] rest IH]; intros tools st tools' st' Ht Hst;
    cbn [toolsForFields]; [intros [= <- <-]; by split|].
  destruct (generateToolForField tm fname field op st) as [[tool st1]|] eqn:Et;
    [|discriminate].
  unfold generateToolForField in Et.
  destruct (collectArguments tm (field_args field) [] []) as [[p r]|];
    [|discriminate].
  destruct (generateFieldSelection tm selectionFuel (field_type field) ∅ 0 st)
    as [[[s v] st2]|] eqn:Es; [|discriminate].
  injection Et as <- <-.
  apply generateFieldSelection_satisfies in Es as [Hs Hst2]; [|exact Hst].
  apply IH; [|exact Hst2].
  apply Forall_app. split; [exact Ht|].
  constructor; [|constructor]. cbn. by intros info [= <-].
Qed.

End CacheInvariant.

Lemma generateMCPToolsFromSchema_satisfies
    (F M : string -> string -> Prop) schema st0 tools st :
  (forall n fs, listed (typeMap schema) n fs -> M n (minimalOf fs)) ->
  (forall n v, M n v -> F n v) ->
  (forall n fs depth l, listed (typeMap schema) n fs -> F n (formatSelection depth l)) ->
  generateMCPToolsFromSchema schema st0 = Some (tools, st) ->
  Forall (fun tool => forall info,
            _graphql tool = Some info ->
            selectionSatisfies F (fieldSelection info)) tools /\
  cachesSatisfy F M st.
Proof.
  intros HM HMF HF. unfold generateMCPToolsFromSchema.
  destruct (prewarm _ _ _) as [st1|] eqn:Ep; [|discriminate].
  apply (prewarm_satisfies _ F M HM HMF HF) in Ep; [|done|].
  2: { split; intros k v; cbn; by rewrite lookup_empty. }
  destruct (toolsForFields _ Query _ _ _) as [[tools1 st2]|] eqn:Eq; [|discriminate].
  apply (toolsForFields_satisfies _ F M HM HMF HF) in Eq as [Ht1 Hst2];
    [|constructor|exact Ep].
  intros Em. by apply (toolsForFields_satisfies _ F M HM HMF HF) in Em.
Qed.

Lemma prewarm_covers tm types :
  forall st st',
    prewarm tm types st = Some st' ->
    keepsEntries st st' /\
    forall n d, (n, d) ∈ types -> isComposite d = true ->
      String.prefix "__" n = false ->
      is_Some (typeFieldSelectionCache st' !! n).
Proof.
  induction types as [|[n d] rest IH]; intros st st'.
  - cbn. intros [= <-]. split; [apply keepsEntries_refl|].
    intros n d Hin. by apply elem_of_nil in Hin.
  - assert (Hskip : prewarm tm rest st = Some st' ->
                    (isComposite d = true -> String.prefix "__" n = true) ->
                    keepsEntries st st' /\
                    forall n0 d0, (n0, d0) ∈ (n, d) :: rest -> isComposite d0 = true ->
                      String.prefix "__" n0 = false ->
                      is_Some (typeFieldSelectionCache st' !! n0)).
    { intros [Hk Hc]%IH Hd. split; [exact Hk|].
      intros n0 d0 [[= -> ->]|Hin]%elem_of_cons Hd0 Hp; [|by eapply Hc].
      rewrite (Hd Hd0) in Hp. discriminate. }
    assert (Hgen : forall fs,
      (d = ObjectType fs \/ d = InterfaceType fs) ->
      (if String.prefix "__" n then prewarm tm rest st
       else match generateFullFieldSelection tm selectionFuel n fs 0 st with
            | Some (_, st1) => prewarm tm rest st1
            | None => None
            end) = Some st' ->
      keepsEntries st st' /\
      forall n0 d0, (n0, d0) ∈ (n, d) :: rest -> isComposite d0 = true ->
        String.prefix "__" n0 = false ->
        is_Some (typeFieldSelectionCache st' !! n0)).
    { intros fs Hd. destruct (String.prefix "__" n) eqn:Ep.
      - intros H. by apply Hskip.
      - destruct (generateFullFieldSelection tm selectionFuel n fs 0 st)
          as [[s st1]|] eqn:Eg; [|discriminate].
        pose proof (generateFullFieldSelection_cached _ _ _ _ _ _ _ _ Eg) as Hc.
        apply generateFullFieldSelection_keepsEntries in Eg.
        intros [Hk Hcov]%IH. split; [by eapply keepsEntries_trans|].
        intros n0 d0 [[= -> ->]|Hin]%elem_of_cons Hd0 Hp; [|by eapply Hcov].
        exists s. by apply (proj1 Hk). }
    destruct d; cbn [prewarm];
      try (intros H; apply Hskip; [exact H | discriminate]);
      apply Hgen; auto.
Qed.

(** X13: after a build, whatever the caches held before, every key of
    either cache is the name of an object or interface type listed in the
    schema's type map, and every such type whose name does not begin with
    two underscores has an entry in the full cache. *)
Theorem caches_hold_the_schema_types (schema : GraphQLSchema) (st0 : Caches) :
  exists tools st,
    generateMCPToolsFromSchema schema st0 = Some (tools, st) /\
    (forall k v, typeFieldSelectionCache st !! k = Some v ->
       exists fs, listed (typeMap schema) k fs) /\
    (forall k v, minimalFieldSelectionCache st !! k = Some v ->
       exists fs, listed (typeMap schema) k fs) /\
    (forall n d, (n, d) ∈ typeMap schema -> isComposite d = true ->
       String.prefix "__" n = false ->
       is_Some (typeFieldSelectionCache st !! n)).
Proof.
  destruct (generateMCPToolsFromSchema_total schema st0) as [[tools st] Hb].
  exists tools, st. split; [exact Hb|].
  pose proof (generateMCPToolsFromSchema_satisfies
                (fun k _ => exists fs, listed (typeMap schema) k fs)
                (fun k _ => exists fs, listed (typeMap schema) k fs)
                schema st0 tools st) as Hs.
  destruct Hs as [_ [Hf Hm]]; eauto.
  split; [exact Hf|]. split; [exact Hm|].
  unfold generateMCPToolsFromSchema in Hb.
  destruct (prewarm _ _ _) as [st1|] eqn:Ep; [|discriminate].
  apply prewarm_covers in Ep as [_ Hcov].
  destruct (toolsForFields _ Query _ _ _) as [[tools1 st2]|] eqn:Eq; [|discriminate].
  apply toolsForFields_selectionsCached in Eq as [Hc1 Hk1]; [|constructor].
  apply toolsForFields_selectionsCached in Hb as [_ Hk2]; [|exact Hc1].
  intros n d Hin Hd Hp. destruct (Hcov n d Hin Hd Hp) as [s Hs].
  exists s. apply (proj1 Hk2), (proj1 Hk1), Hs.
Qed.

Lemma minimalOf_form fs : minimalForm (minimalOf fs).
Proof.
  unfold minimalOf, minimalForm.
  destruct (hasKey "documentId" fs); [auto|]. destruct (hasKey "id" fs); auto.
Qed.

Lemma minimalForm_braced s : minimalForm s -> braced s.
Proof.
  intros [->|[->| ->]]; [right|right|by left].
  - by exists " documentId ".
  - by exists " id ".
Qed.

Lemma formatSelection_braced depth l : braced (formatSelection depth l).
Proof.
  unfold formatSelection. destruct l as [|x l]; [by left|]. right.
  exists (nl +:+ repeat_str "  " (depth + 1)
          +:+ join (nl +:+ repeat_str "  " (depth + 1)) (x :: l)
          +:+ nl +:+ repeat_str "  " depth).
  by rewrite !string_app_assoc.
Qed.

(** X14: after a build every entry of the minimal cache is one of
    [{ documentId }], [{ id }] and the empty text, and every entry of the
    full cache and every tool's field selection is either empty or
    enclosed in a pair of braces, so that it can be appended to a field as
    it is. *)
Theorem selections_are_braced (schema : GraphQLSchema) (st0 : Caches) :
  exists tools st,
    generateMCPToolsFromSchema schema st0 = Some (tools, st) /\
    (forall k v, minimalFieldSelectionCache st !! k = Some v -> minimalForm v) /\
    (forall k v, typeFieldSelectionCache st !! k = Some v -> braced v) /\
    (forall tool info,
       tool ∈ tools -> _graphql tool = Some info ->
       braced (fieldSelection info)).
Proof.
  destruct (generateMCPToolsFromSchema_total schema st0) as [[tools st] Hb].
  exists tools, st. split; [exact Hb|].
  pose proof (generateMCPToolsFromSchema_satisfies
                (fun _ v => braced v) (fun _ v => minimalForm v)
                schema st0 tools st) as Hs.
  destruct Hs as [Ht [Hf Hm]]; auto using minimalOf_form, minimalForm_braced,
    formatSelection_braced.
  split; [exact Hm|]. split; [exact Hf|].
  intros tool info Hin Hi. rewrite Forall_forall in Ht.
  destruct (Ht tool Hin info Hi) as [->|[->|[_ H]]]; [by left| |exact H].
  right. by exists " __typename ".
Qed.

(** ** Selections of types without object-typed fields *)

Lemma collectFieldSelections_direct tm rec typeName depth fields :
  forallb (isDirect tm) fields = true ->
  forall acc st,
    collectFieldSelections tm rec typeName depth fields acc st
    = Some (acc ++ map (directEntry tm) fields, st).
Proof.
  induction fields as [|[fname field] rest IH]; intros Hd acc st.
  - cbn. by rewrite app_nil_r.
  - cbn [forallb] in Hd. apply andb_prop in Hd as [Hf Hrest].
    cbn [collectFieldSelections map]. unfold fieldSelectionEntry.
    unfold isDirect in Hf. unfold directEntry at 1. cbn [fst snd] in *.
    destruct (classify tm (stripWrappers (field_type field))); [discriminate|..];
      rewrite IH by done; cbn [option_list]; by rewrite <- app_assoc.
Qed.

(** X15: a type none of whose fields is of object or interface type (after
    unwrapping) gets, when it is not cached yet and the depth is at most
    3, a selection that lists all its fields in declared order, a union
    field with [{ __typename }] and any other field by its bare name; the
    only change to the caches is the new entry for the type. *)
Theorem flat_type_selects_every_field
    (tm : TypeMap) (fuel : nat) (n : string) (fs : FieldMap) (depth : nat)
    (st : Caches) :
  forallb (isDirect tm) fs = true ->
  typeFieldSelectionCache st !! n = None ->
  depth <= 3 ->
  generateFullFieldSelection tm (S fuel) n fs depth st
  = Some (formatSelection depth (map (directEntry tm) fs),
          setFull n (formatSelection depth (map (directEntry tm) fs)) st).
Proof.
  intros Hd Hn Hdepth. cbn [generateFullFieldSelection]. rewrite Hn.
  destruct (Nat.ltb_spec 3 depth); [lia|].
  by rewrite collectFieldSelections_direct.
Qed.

Lemma flat_type_selects_every_field_witness :
  forallb (isDirect chainTypes)
    [("name", mkField (NonNull (Named "String")));
     ("tags", mkField (ListOf (Named "String")))] = true /\
  generateFullFieldSelection chainTypes 1 "E"
    [("name", mkField (NonNull (Named "String")));
     ("tags", mkField (ListOf (Named "String")))] 2 emptyCaches
  = Some (formatSelection 2 ["name"; "tags"],
          setFull "E" (formatSelection 2 ["name"; "tags"]) emptyCaches).
Proof.
  split; [reflexivity|].
  apply (flat_type_selects_every_field chainTypes 0 "E"
           [("name", mkField (NonNull (Named "String")));
            ("tags", mkField (ListOf (Named "String")))] 2 emptyCaches);
    [reflexivity | reflexivity | lia].
Defined.

(** ** Lists in parameter schemas *)

Lemma wrapperSchema_arrays named t :
  wrapperSchema named t = arrays (listDepth t) <$> named (baseName t).
Proof.
  induction t as [t IH|t IH|n]; cbn [wrapperSchema listDepth baseName].
  - exact IH.
  - rewrite IH. by destruct (named (baseName t)).
  - by destruct (named n).
Qed.

(** X16: unlike the selection generator, the parameter generator follows
    any number of wrapper layers: for a type over a scalar, an enum or an
    unknown name, the schema is the leaf schema of that name inside
    exactly as many array nodes as the type has list layers; non-null
    markers leave no trace in it. *)
Theorem parameter_schema_of_lists
    (tm : TypeMap) (fuel : nat) (t : GraphQLType) (visited : gset string)
    (leaf : JSONSchema) :
  leafSchema tm (baseName t) = Some leaf ->
  getJSONSchemaType tm (S fuel) t visited = Some (arrays (listDepth t) leaf).
Proof.
  intros Hleaf. cbn [getJSONSchemaType]. rewrite wrapperSchema_arrays.
  unfold namedSchema. unfold leafSchema in Hleaf.
  destruct (assoc (baseName t) tm) as [[]|]; try discriminate;
    by injection Hleaf as <-.
Qed.

Lemma parameter_schema_of_lists_witness :
  leafSchema (typeMap forumSchema)
    (baseName (NonNull (ListOf (ListOf (NonNull (Named "Int"))))))
  = Some (SchemaLeaf "integer" None None) /\
  getJSONSchemaType (typeMap forumSchema) 1
    (NonNull (ListOf (ListOf (NonNull (Named "Int"))))) ∅
  = Some (SchemaArray (SchemaArray (SchemaLeaf "integer" None None) None) None).
Proof.
  split; [reflexivity|].
  apply (parameter_schema_of_lists (typeMap forumSchema) 0
           (NonNull (ListOf (ListOf (NonNull (Named "Int"))))) ∅
           (SchemaLeaf "integer" None None)).
  reflexivity.
Defined.
